(** * OBT archives: a shallow embedding of [OBT.py]

    The archive format packs an ordered collection of byte blobs into one
    file: a table of 12-byte rows [(offset, size, compressed)] (three
    little-endian unsigned 32-bit integers each) followed by the payloads.

    The Python classes [OBTEntry] and [OBT] are embedded as records, their
    methods as functions in a state-and-exception monad over a "world" made of
    the file system and the archive object.  A raised exception keeps the
    world as it was mutated up to the [raise], as in Python. *)

From Stdlib Require Import ZArith Lia List Strings.Byte.
From stdpp Require Import gmap strings list fin_maps pretty.

Local Open Scope Z_scope.

(** ** Exceptions *)

(** The exception classes the code can raise.  [OBTError] and
    [InvalidOBTFileError] carry the [msg] argument given at the [raise];
    [InvalidOBTFileError] is a subclass of [OBTError]. *)
Inductive exn : Type :=
| OBTError (msg : string)
| InvalidOBTFileError (msg : string)
| FileNotFoundError (path : string)
| StructError
| KeyError (key : Z)
| TypeError
| OSError
| AttributeError
| UnsupportedOperation.

(** [isinstance(e, InvalidOBTFileError)] *)
Definition is_InvalidOBTFileError (e : exn) : bool :=
  match e with InvalidOBTFileError _ => true | _ => false end.

(** [isinstance(e, OBTError)] *)
Definition is_OBTError (e : exn) : bool :=
  match e with OBTError _ | InvalidOBTFileError _ => true | _ => false end.

(** [str(e)] for the two archive exception classes, following their
    [__init__] methods. *)
Definition exn_str (e : exn) : string :=
  match e with
  | OBTError msg => "OBT Error: " +:+ msg
  | InvalidOBTFileError msg => "OBT Error: Invalid OBT File: " +:+ msg
  | FileNotFoundError p => p
  | _ => ""
  end.

(** ** Bytes and little-endian integers *)

Definition byte_val (b : byte) : Z := Z.of_N (Byte.to_N b).

Definition byte_of_Z (v : Z) : byte :=
  default x00 (Byte.of_N (Z.to_N (v mod 256))).

(** [int.from_bytes(bs, "little")] *)
Fixpoint int_from_bytes (bs : list byte) : Z :=
  match bs with
  | [] => 0
  | b :: rest => byte_val b + 256 * int_from_bytes rest
  end.

(** The [n] low bytes of [v], least significant first. *)
Fixpoint int_to_bytes (n : nat) (v : Z) : list byte :=
  match n with
  | O => []
  | S n' => byte_of_Z v :: int_to_bytes n' (v / 256)
  end.

Definition U32_LIMIT : Z := 4294967296.

(** One ["I"] field of [struct.pack]: the value must fit 32 unsigned bits,
    [struct.error] otherwise. *)
Definition pack_I (v : Z) : exn + list byte :=
  if (0 <=? v) && (v <? U32_LIMIT) then inr (int_to_bytes 4 v)
  else inl StructError.

(** [struct.pack("<III", a, b, c)] *)
Definition struct_pack_III (a b c : Z) : exn + list byte :=
  match pack_I a, pack_I b, pack_I c with
  | inr x, inr y, inr z => inr (x ++ y ++ z)
  | _, _, _ => inl StructError
  end.

(** [struct.unpack("<III", bs)]: the buffer must hold exactly 12 bytes. *)
Definition struct_unpack_III (bs : list byte) : exn + (Z * Z * Z) :=
  if (length bs =? 12)%nat
  then inr (int_from_bytes (take 4 bs),
            int_from_bytes (take 4 (drop 4 bs)),
            int_from_bytes (take 4 (drop 8 bs)))
  else inl StructError.

(** ** Entry records *)

Module OBTEntry.

Record t : Type := mk {
  offset : Z;
  size : Z;
  is_compressed : Z;
  loaded : bool;
  raw_entry : option (list byte)
}.

(** [OBTEntry.__init__] *)
Definition init : t := mk (-1) (-1) (-1) false None.

(** [OBTEntry.load]: plain field assignments, no test of [loaded]. *)
Definition load (self : t) (offset size is_compressed : Z) : exn + t :=
  inr (mk offset size is_compressed true (raw_entry self)).

(** [OBTEntry.frombytes] *)
Definition frombytes (self : t) (entry : list byte) : exn + t :=
  if loaded self then inl (OBTError "Cannot overwrite a loaded entry")
  else inr (mk (offset self) (Z.of_nat (length entry)) (is_compressed self)
               (loaded self) (Some entry)).

(** The assignment [obt_entry.is_compressed = compressed]. *)
Definition set_is_compressed (c : Z) (self : t) : t :=
  mk (offset self) (size self) c (loaded self) (raw_entry self).

End OBTEntry.

(** ** Files *)

(** The file system: regular files by path. *)
Abbreviation FS := (gmap string (list byte)).

(** An open binary file object: its path, its position and what its opening
    mode allows. *)
Record IO : Type := mkIO {
  io_name : string;
  io_pos : Z;
  io_readable : bool;
  io_writable : bool
}.

Inductive OBTFileMode : Type := OBT_None | OBT_Read | OBT_Write.

Definition mode_eqb (a b : OBTFileMode) : bool :=
  match a, b with
  | OBT_None, OBT_None | OBT_Read, OBT_Read | OBT_Write, OBT_Write => true
  | _, _ => false
  end.

(** ** The archive object *)

Module OBT.

Record t : Type := mk {
  entries : gmap Z OBTEntry.t;
  fp : option IO;
  filename : string;
  total_size : Z;
  entry_offset : Z;
  mode : OBTFileMode
}.

(** [OBT.__init__] *)
Definition init (filename : string) : t :=
  mk ∅ None filename 0 0 OBT_None.

End OBT.

(** The world a method runs in: the disk and the archive object [self]. *)
Record world : Type := World {
  disk : FS;
  this : OBT.t
}.

Definition set_entries (f : gmap Z OBTEntry.t → gmap Z OBTEntry.t) (w : world) : world :=
  let s := this w in
  World (disk w) (OBT.mk (f (OBT.entries s)) (OBT.fp s) (OBT.filename s)
                         (OBT.total_size s) (OBT.entry_offset s) (OBT.mode s)).

Definition set_fp (h : option IO) (w : world) : world :=
  let s := this w in
  World (disk w) (OBT.mk (OBT.entries s) h (OBT.filename s)
                         (OBT.total_size s) (OBT.entry_offset s) (OBT.mode s)).

Definition set_total_size (f : Z → Z) (w : world) : world :=
  let s := this w in
  World (disk w) (OBT.mk (OBT.entries s) (OBT.fp s) (OBT.filename s)
                         (f (OBT.total_size s)) (OBT.entry_offset s) (OBT.mode s)).

Definition set_entry_offset (f : Z → Z) (w : world) : world :=
  let s := this w in
  World (disk w) (OBT.mk (OBT.entries s) (OBT.fp s) (OBT.filename s)
                         (OBT.total_size s) (f (OBT.entry_offset s)) (OBT.mode s)).

Definition set_mode (m : OBTFileMode) (w : world) : world :=
  let s := this w in
  World (disk w) (OBT.mk (OBT.entries s) (OBT.fp s) (OBT.filename s)
                         (OBT.total_size s) (OBT.entry_offset s) m).

Definition set_disk (f : FS → FS) (w : world) : world :=
  World (f (disk w)) (this w).

(** ** The monad of methods *)

Definition M (A : Type) : Type := world → world * (exn + A).

Definition ret {A} (x : A) : M A := fun w => (w, inr x).

Definition raise {A} (e : exn) : M A := fun w => (w, inl e).

Definition bind {A B} (c : M A) (k : A → M B) : M B :=
  fun w =>
    match c w with
    | (w', inr x) => k x w'
    | (w', inl e) => (w', inl e)
    end.

Definition get : M world := fun w => (w, inr w).

Definition modify (f : world → world) : M unit := fun w => (f w, inr tt).

(** A call of a method of another object, which returns or raises. *)
Definition lift {A} (r : exn + A) : M A := fun w => (w, r).

Notation "x <- c ;; k" := (bind c (fun x => k))
  (at level 100, c at next level, right associativity).
Notation "c ;; k" := (bind c (fun _ => k))
  (at level 100, right associativity).

(** [for x in l: body], the loop's local variables threaded as [s]. *)
Fixpoint for_in {A S} (l : list A) (body : A → S → M S) (s : S) : M S :=
  match l with
  | [] => ret s
  | x :: rest => s' <- body x s ;; for_in rest body s'
  end.

(** [range(n)] *)
Definition range (n : Z) : list Z := Z.of_nat <$> seq 0 (Z.to_nat n).

(** ** File operations on [self.fp] *)

Definition file_data (d : FS) (name : string) : list byte :=
  default [] (d !! name).

(** [os.path.isfile] *)
Definition isfile (d : FS) (name : string) : bool :=
  match d !! name with Some _ => true | None => false end.

(** [os.path.getsize] of an existing file *)
Definition getsize (d : FS) (name : string) : Z :=
  Z.of_nat (length (file_data d name)).

(** [self.fp = open(self.filename, "wb+")]: the file is created or
    truncated. *)
Definition open_wb_plus : M unit :=
  modify (fun w =>
    let name := OBT.filename (this w) in
    set_fp (Some (mkIO name 0 true true)) (set_disk (insert name []) w)).

(** [self.fp = open(self.filename, "rb")] *)
Definition open_rb : M unit :=
  w <- get ;;
  let name := OBT.filename (this w) in
  if isfile (disk w) name
  then modify (set_fp (Some (mkIO name 0 true false)))
  else raise (FileNotFoundError name).

(** [self.fp.seek(n)] *)
Definition fp_seek (n : Z) : M unit :=
  w <- get ;;
  match OBT.fp (this w) with
  | None => raise AttributeError
  | Some h =>
      if n <? 0 then raise OSError
      else modify (set_fp (Some (mkIO (io_name h) n (io_readable h) (io_writable h))))
  end.

(** [self.fp.read(n)]: at most [n] bytes from the position on, all the rest
    when [n] is negative. *)
Definition fp_read (n : Z) : M (list byte) :=
  w <- get ;;
  match OBT.fp (this w) with
  | None => raise AttributeError
  | Some h =>
      if io_readable h then
        let rest := drop (Z.to_nat (io_pos h)) (file_data (disk w) (io_name h)) in
        let out := if n <? 0 then rest else take (Z.to_nat n) rest in
        modify (set_fp (Some (mkIO (io_name h) (io_pos h + Z.of_nat (length out))
                                   (io_readable h) (io_writable h)))) ;;
        ret out
      else raise UnsupportedOperation
  end.

(** The contents of a file after [bs] is written at position [p]: a gap
    past the end is filled with zero bytes. *)
Definition write_at (p : nat) (bs data : list byte) : list byte :=
  take p data ++ replicate (p - length data) x00 ++ bs
    ++ drop (p + length bs) data.

(** [self.fp.write(bs)], the contents as they are once flushed. *)
Definition fp_write (bs : list byte) : M unit :=
  w <- get ;;
  match OBT.fp (this w) with
  | None => raise AttributeError
  | Some h =>
      if io_writable h then
        let data := file_data (disk w) (io_name h) in
        modify (fun w =>
          set_fp (Some (mkIO (io_name h) (io_pos h + Z.of_nat (length bs))
                             (io_readable h) (io_writable h)))
            (set_disk (insert (io_name h) (write_at (Z.to_nat (io_pos h)) bs data)) w))
      else raise UnsupportedOperation
  end.

(** ** Methods of [OBT] *)

Definition lookup_entry (i : Z) : M OBTEntry.t :=
  w <- get ;;
  match OBT.entries (this w) !! i with
  | Some e => ret e
  | None => raise (KeyError i)
  end.

(** [OBT.init_write] *)
Definition init_write (overwrite : bool) : M unit :=
  w <- get ;;
  if negb (mode_eqb (OBT.mode (this w)) OBT_None)
  then raise (OBTError "File is already opened")
  else if isfile (disk w) (OBT.filename (this w)) && negb overwrite
  then raise (OBTError ("Will not overwrite " +:+ OBT.filename (this w)
                          +:+ " unless explicitly enabled"))
  else
    open_wb_plus ;;
    modify (set_mode OBT_Write).

(** One round of the loop of [OBT.load]: header row [i]. *)
Definition load_row (i : Z) (_ : unit) : M unit :=
  fp_seek (i * 12) ;;
  row <- fp_read 12 ;;
  fields <- lift (struct_unpack_III row) ;;
  let '(entry_offset, entry_size, entry_is_compressed) := fields in
  if negb ((entry_is_compressed =? 0) || (entry_is_compressed =? 1))
  then raise (OBTError "Unknown compression method")
  else
    modify (set_entries (insert i OBTEntry.init)) ;;
    e <- lookup_entry i ;;
    e' <- lift (OBTEntry.load e entry_offset entry_size entry_is_compressed) ;;
    modify (set_entries (insert i e')) ;;
    modify (set_total_size (fun t => t + entry_size)).

(** [OBT.load] *)
Definition load : M unit :=
  w <- get ;;
  if negb (mode_eqb (OBT.mode (this w)) OBT_None)
  then raise (OBTError "File is already opened")
  else if negb (isfile (disk w) (OBT.filename (this w)))
  then raise (FileNotFoundError (OBT.filename (this w)))
  else
    let raw_fsiz := getsize (disk w) (OBT.filename (this w)) in
    if raw_fsiz <? 4
    then raise (InvalidOBTFileError "Could not read header size")
    else
      open_rb ;;
      fp_seek 0 ;;
      head <- fp_read 4 ;;
      let hdr_size := int_from_bytes head in
      if raw_fsiz <? hdr_size
      then raise (InvalidOBTFileError "Could not read header")
      else
        modify (set_total_size (fun t => t + hdr_size)) ;;
        let n_entries := hdr_size / 12 in
        for_in (range n_entries) load_row tt ;;
        w' <- get ;;
        if raw_fsiz <? OBT.total_size (this w')
        then raise (InvalidOBTFileError "Not enough data in file")
        else modify (set_mode OBT_Read).

(** [OBT.add_entry]; the Python [bool] stored in [is_compressed] is the
    integer 0 or 1 it stands for. *)
Definition add_entry (entry : list byte) (compressed : bool) : M unit :=
  w <- get ;;
  if negb (mode_eqb (OBT.mode (this w)) OBT_Write)
  then raise (OBTError "OBT has not been opened for writing")
  else
    obt_entry <- lift (OBTEntry.frombytes OBTEntry.init entry) ;;
    let obt_entry := OBTEntry.set_is_compressed (Z.b2z compressed) obt_entry in
    modify (set_entries (insert (OBT.entry_offset (this w)) obt_entry)) ;;
    modify (set_entry_offset (fun n => n + 1)).

(** First loop of [OBT.finalize_write]: header row [i], the local
    [cur_off] threaded through. *)
Definition write_row (i : Z) (cur_off : Z) : M Z :=
  ent <- lookup_entry i ;;
  header_entry <- lift (struct_pack_III cur_off (OBTEntry.size ent)
                                        (OBTEntry.is_compressed ent)) ;;
  fp_write header_entry ;;
  ret (cur_off + OBTEntry.size ent).

(** Second loop of [OBT.finalize_write]: payload [i]; writing [None] is a
    [TypeError]. *)
Definition write_payload (i : Z) (_ : unit) : M unit :=
  ent <- lookup_entry i ;;
  match OBTEntry.raw_entry ent with
  | Some bs => fp_write bs
  | None => raise TypeError
  end.

(** [OBT.finalize_write] *)
Definition finalize_write : M unit :=
  w <- get ;;
  if negb (mode_eqb (OBT.mode (this w)) OBT_Write)
  then raise (OBTError "OBT has not been opened for writing")
  else
    let n := Z.of_nat (size (OBT.entries (this w))) in
    if n =? 0
    then raise (OBTError "No entries to write")
    else
      let header_size := n * 12 in
      fp_seek 0 ;;
      for_in (range n) write_row header_size ;;
      for_in (range n) write_payload tt.

(** [OBT.export_entry].  For an index that is not a key the code runs
    [raise OBTEntry(...)]: the constructor takes no argument, so a
    [TypeError] comes out. *)
Definition export_entry (entry_idx : Z) : M (list byte) :=
  w <- get ;;
  if negb (mode_eqb (OBT.mode (this w)) OBT_Read)
  then raise (OBTError "File is not opened")
  else
    match OBT.entries (this w) !! entry_idx with
    | None => raise TypeError
    | Some entry =>
        fp_seek (OBTEntry.offset entry) ;;
        fp_read (OBTEntry.size entry)
    end.


(** ** Scenarios *)

(** A new archive object for [name] on disk [d]: [OBT(name)].  A reader is
    such an object on the disk a writer left: by then [__exit__] has closed
    the writer's file, so all it wrote is in the file. *)
Definition fresh (d : FS) (name : string) : world :=
  World d (OBT.init name).

(** The writer, as the [create] command drives it: open for writing, add
    the entries in order, finalize. *)
Definition add_entries (blobs : list (list byte * bool)) : M unit :=
  for_in blobs (fun '(b, f) _ => add_entry b f) tt.

Definition write_archive (overwrite : bool) (blobs : list (list byte * bool)) : M unit :=
  init_write overwrite ;;
  add_entries blobs ;;
  finalize_write.

(** * Definitions used by the statements

    The file format as [load] decodes it, what the writer is expected to
    produce, triples over the monad, and the concrete inputs of the
    examples. *)

(** ** The header table as [load] decodes it *)

(** Row [i] of the table of [data], as [load] reads it: the 12 bytes at
    offset [12 * i]. *)
Definition row_bytes (data : list byte) (i : nat) : list byte :=
  take 12 (drop (12 * i) data).

(** Its three fields: offset, size, compression flag. *)
Definition row_at (data : list byte) (i : nat) : Z * Z * Z :=
  let r := row_bytes data i in
  (int_from_bytes (take 4 r),
   int_from_bytes (take 4 (drop 4 r)),
   int_from_bytes (take 4 (drop 8 r))).

Definition row_flag (data : list byte) (i : nat) : Z := snd (row_at data i).
Definition row_size (data : list byte) (i : nat) : Z := snd (fst (row_at data i)).
Definition row_offset (data : list byte) (i : nat) : Z := fst (fst (row_at data i)).

(** The test [entry_is_compressed in [0, 1]]. *)
Definition flag_ok (c : Z) : bool := (c =? 0) || (c =? 1).

(** The record bound for row [i]. *)
Definition row_entry (data : list byte) (i : nat) : OBTEntry.t :=
  OBTEntry.mk (row_offset data i) (row_size data i) (row_flag data i) true None.

(** The header size the file announces: its first four bytes. *)
Definition header_size (data : list byte) : Z := int_from_bytes (take 4 data).

(** The number of rows [load] goes through. *)
Definition row_count (data : list byte) : nat := Z.to_nat (header_size data / 12).

(** The table after rows [l] have been bound, and the sizes they add. *)
Definition bind_rows (data : list byte) (l : list nat)
    (ents : gmap Z OBTEntry.t) : gmap Z OBTEntry.t :=
  foldl (fun acc i => <[Z.of_nat i := row_entry data i]> acc) ents l.

(** The sum of the sizes declared by the rows [l]. *)
Definition declared_size (data : list byte) (l : list nat) : Z :=
  foldr (fun i acc => row_size data i + acc) 0 l.

(** Row [i] is complete and its flag is known. *)
Definition row_good (data : list byte) (i : nat) : Prop :=
  length (row_bytes data i) = 12%nat ∧ flag_ok (row_flag data i) = true.

(** ** Triples over the monad *)

(** [hoare P c Q]: from a world satisfying [P], whatever [c] returns or
    raises, the outcome and the world it leaves satisfy [Q]. *)
Definition hoare {A} (P : world → Prop) (c : M A)
    (Q : exn + A → world → Prop) : Prop :=
  ∀ w w' r, P w → c w = (w', r) → Q r w'.

(** [c] keeps the invariant [I], on return and on exception alike. *)
Definition preserves {A} (I : world → Prop) (c : M A) : Prop :=
  hoare I c (fun _ => I).

(** [I] does not depend on the file object's position, nor on the table,
    nor on the running total. *)
Definition stable_read (I : world → Prop) : Prop :=
  (∀ w h, I w → I (set_fp h w))
  ∧ (∀ w f, I w → I (set_entries f w))
  ∧ (∀ w f, I w → I (set_total_size f w)).

(** The archive is in mode [m]. *)
Definition mode_is (m : OBTFileMode) (w : world) : Prop :=
  OBT.mode (this w) = m.

(** ** What the writer produces *)

(** The writer is given payloads with their flags, in order; the size of
    one. *)
Definition blob_size (x : list byte * bool) : Z := Z.of_nat (length (fst x)).

(** The record [add_entry] builds for a payload. *)
Definition blob_entry (x : list byte * bool) : OBTEntry.t :=
  OBTEntry.mk (-1) (blob_size x) (Z.b2z (snd x)) false (Some (fst x)).

(** The table after the payloads [l] were added from key [k] on. *)
Fixpoint entries_of (k : Z) (l : list (list byte * bool)) : gmap Z OBTEntry.t :=
  match l with
  | [] => ∅
  | x :: rest => <[k := blob_entry x]> (entries_of (k + 1) rest)
  end.

(** The sizes of the payloads [l], added up. *)
Definition total_sizes (l : list (list byte * bool)) : Z :=
  foldr (fun x acc => blob_size x + acc) 0 l.

(** Every offset and size of the table fits an unsigned 32-bit field, the
    first payload placed at [off]. *)
Fixpoint fits_u32 (off : Z) (l : list (list byte * bool)) : bool :=
  match l with
  | [] => true
  | x :: rest =>
      (0 <=? off) && (off <? U32_LIMIT) && (blob_size x <? U32_LIMIT)
      && fits_u32 (off + blob_size x) rest
  end.

(** The header table of the format for [l], the first payload at [off]. *)
Fixpoint header_bytes (off : Z) (l : list (list byte * bool)) : list byte :=
  match l with
  | [] => []
  | x :: rest =>
      (int_to_bytes 4 off ++ int_to_bytes 4 (blob_size x)
         ++ int_to_bytes 4 (Z.b2z (snd x)))
      ++ header_bytes (off + blob_size x) rest
  end.

(** The payloads, one after the other. *)
Definition payload_bytes (l : list (list byte * bool)) : list byte :=
  concat (fst <$> l).

(** The file of the format for [l]. *)
Definition archive_bytes (l : list (list byte * bool)) : list byte :=
  header_bytes (12 * Z.of_nat (length l)) l ++ payload_bytes l.

(** The world of the two loops of [finalize_write]: only the disk and the
    position of the file object change. *)
Definition writing (ents : gmap Z OBTEntry.t) (name fname : string)
    (rd : bool) (tot eo : Z) (md : OBTFileMode) (d : FS) (p : Z) : world :=
  World d (OBT.mk ents (Some (mkIO name p rd true)) fname tot eo md).

(** The file object is open on [name], past its first four bytes, and these
    are [v]. *)
Definition header_kept (name : string) (v : list byte) (w : world) : Prop :=
  ∃ h, OBT.fp (this w) = Some h ∧ io_name h = name ∧ 4 <= io_pos h
       ∧ take 4 (file_data (disk w) name) = v
       ∧ (4 <= length (file_data (disk w) name))%nat.

(** ** Concrete inputs *)

(** The entries [b"AB"] (flag [False]) and [b"CDE"] (flag [True]). *)
Definition ab_cde : list (list byte * bool) :=
  [(["A"; "B"]%byte, false); (["C"; "D"; "E"]%byte, true)].

(** The 29 bytes of their archive: rows [(24, 2, 0)] and [(26, 3, 1)], then
    the payloads. *)
Definition ab_cde_file : list byte :=
  [x18; x00; x00; x00;  x02; x00; x00; x00;  x00; x00; x00; x00;
   x1a; x00; x00; x00;  x03; x00; x00; x00;  x01; x00; x00; x00;
   "A"; "B"; "C"; "D"; "E"]%byte.

(** A payload of [2^32 - 24] zero bytes. *)
Definition big_blob : list byte := replicate (Z.to_nat (U32_LIMIT - 24)) x00.

(** A one-row header [(12, 0, 2)]: the flag is neither 0 nor 1. *)
Definition bad_flag_file : list byte :=
  [x0c; x00; x00; x00;  x00; x00; x00; x00;  x02; x00; x00; x00].

(** Rows [(24, 1, 0)] and [(1000, 1, 0)], then two payload bytes: the second
    offset points past the end of the file. *)
Definition bad_offset_file : list byte :=
  [x18; x00; x00; x00;  x01; x00; x00; x00;  x00; x00; x00; x00;
   xe8; x03; x00; x00;  x01; x00; x00; x00;  x00; x00; x00; x00;
   "A"; "B"]%byte.


(** A write-mode archive holding [ab_cde], ready to be finalized. *)
Definition ab_cde_writer : world :=
  fst ((init_write true ;; add_entries ab_cde) (fresh ∅ "out.obt")).

(** One row [(12, 5, 0)] and a single payload byte. *)
Definition truncated_file : list byte :=
  [x0c; x00; x00; x00;  x05; x00; x00; x00;  x00; x00; x00; x00; "A"]%byte.

(** A header size of 5 in a file of 6 bytes. *)
Definition tiny_header_file : list byte :=
  [x05; x00; x00; x00; "A"; "B"]%byte.

(** ** Definitions for the further properties *)

(** The contents of a file once [pre] has been written over [old] from
    position 0: what [old] had beyond [pre] stays. *)
Definition overlay (pre old : list byte) : list byte :=
  pre ++ drop (length pre) old.

(** A header size of 30, not a multiple of 12: rows [(30, 1, 0)] and
    [(31, 1, 1)], six more bytes that belong to no row, then two payload
    bytes. *)
Definition ragged_header_file : list byte :=
  [x1e; x00; x00; x00;  x01; x00; x00; x00;  x00; x00; x00; x00;
   x1f; x00; x00; x00;  x01; x00; x00; x00;  x01; x00; x00; x00;
   xff; xff; xff; xff;  xff; xff;
   "A"; "B"]%byte.


(** * Properties *)

(** ** Little-endian encoding *)

Section Codec.

Lemma byte_val_range (b : byte) : 0 <= byte_val b < 256.
Proof.
  unfold byte_val. pose proof (Byte.to_N_bounded b). lia.
Qed.

Lemma byte_val_of_Z (v : Z) : byte_val (byte_of_Z v) = v mod 256.
Proof.
  unfold byte_val, byte_of_Z.
  pose proof (Z.mod_pos_bound v 256 ltac:(lia)) as Hm.
  destruct (Byte.of_N (Z.to_N (v mod 256))) as [b|] eqn:E.
  - apply Byte.to_of_N in E. simpl. rewrite E. lia.
  - apply Byte.of_N_None_iff in E. lia.
Qed.

Lemma byte_of_Z_val (b : byte) : byte_of_Z (byte_val b) = b.
Proof.
  unfold byte_of_Z, byte_val.
  pose proof (Byte.to_N_bounded b).
  rewrite Z.mod_small by lia.
  rewrite N2Z.id, Byte.of_to_N. reflexivity.
Qed.

Lemma length_int_to_bytes (n : nat) (v : Z) : length (int_to_bytes n v) = n.
Proof.
  revert v. induction n as [|n IH]; intros v; cbn; [reflexivity|].
  now rewrite IH.
Qed.

Lemma int_from_bytes_nonneg (bs : list byte) : 0 <= int_from_bytes bs.
Proof.
  induction bs as [|b bs IH]; cbn [int_from_bytes]; [lia|].
  pose proof (byte_val_range b). lia.
Qed.

Lemma int_from_to_bytes (n : nat) (v : Z) :
  0 <= v < 256 ^ Z.of_nat n → int_from_bytes (int_to_bytes n v) = v.
Proof.
  revert v. induction n as [|n IH]; intros v Hv.
  - cbn in *. lia.
  - cbn [int_to_bytes int_from_bytes].
    rewrite byte_val_of_Z.
    rewrite Nat2Z.inj_succ, Z.pow_succ_r in Hv by lia.
    rewrite IH.
    + pose proof (Z.div_mod v 256 ltac:(lia)). lia.
    + split; [apply Z.div_pos; lia|].
      apply Z.div_lt_upper_bound; lia.
Qed.

Lemma int_from_to_bytes_4 (v : Z) :
  0 <= v < U32_LIMIT → int_from_bytes (int_to_bytes 4 v) = v.
Proof.
  intros Hv. apply int_from_to_bytes. exact Hv.
Qed.

End Codec.

(** ** Running the primitives

    Equations for one step of a method on a world whose components are
    explicit; the proofs about methods rewrite with them. *)

Section Run.

Context {A B : Type}.

Lemma bind_inr (c : M A) (k : A → M B) (w w' : world) (x : A) :
  c w = (w', inr x) → bind c k w = k x w'.
Proof. intros H. unfold bind. now rewrite H. Qed.

Lemma bind_inl (c : M A) (k : A → M B) (w w' : world) (e : exn) :
  c w = (w', inl e) → bind c k w = (w', inl e).
Proof. intros H. unfold bind. now rewrite H. Qed.

Lemma bind_get (k : world → M B) (w : world) : bind get k w = k w w.
Proof. reflexivity. Qed.

Lemma bind_modify (f : world → world) (k : unit → M B) (w : world) :
  bind (modify f) k w = k tt (f w).
Proof. reflexivity. Qed.

Lemma bind_lift_inr (x : A) (k : A → M B) (w : world) :
  bind (lift (inr x)) k w = k x w.
Proof. reflexivity. Qed.

Lemma bind_lift_inl (e : exn) (k : A → M B) (w : world) :
  bind (lift (inl e)) k w = (w, inl e).
Proof. reflexivity. Qed.

Lemma bind_raise (e : exn) (k : A → M B) (w : world) :
  bind (raise e) k w = (w, inl e).
Proof. reflexivity. Qed.

Lemma bind_ret (x : A) (k : A → M B) (w : world) :
  bind (ret x) k w = k x w.
Proof. reflexivity. Qed.

End Run.

Lemma fp_seek_run d ents h fname tot eo md n :
  0 <= n →
  fp_seek n (World d (OBT.mk ents (Some h) fname tot eo md))
  = (World d (OBT.mk ents
       (Some (mkIO (io_name h) n (io_readable h) (io_writable h)))
       fname tot eo md), inr tt).
Proof.
  intros Hn. unfold fp_seek. rewrite bind_get. cbn.
  destruct (n <? 0) eqn:E; [lia|reflexivity].
Qed.

Lemma fp_read_run d ents name p wr fname tot eo md n :
  0 <= n →
  fp_read n (World d (OBT.mk ents (Some (mkIO name p true wr)) fname tot eo md))
  = let out := take (Z.to_nat n) (drop (Z.to_nat p) (file_data d name)) in
    (World d (OBT.mk ents
       (Some (mkIO name (p + Z.of_nat (length out)) true wr))
       fname tot eo md), inr out).
Proof.
  intros Hn. unfold fp_read. rewrite bind_get. cbn.
  destruct (n <? 0) eqn:E; [lia|reflexivity].
Qed.

Lemma fp_write_run d ents name p rd fname tot eo md bs :
  fp_write bs (World d (OBT.mk ents (Some (mkIO name p rd true)) fname tot eo md))
  = (World (<[name := write_at (Z.to_nat p) bs (file_data d name)]> d)
       (OBT.mk ents (Some (mkIO name (p + Z.of_nat (length bs)) rd true))
          fname tot eo md), inr tt).
Proof. reflexivity. Qed.

Lemma lookup_entry_run (w : world) (i : Z) (e : OBTEntry.t) :
  OBT.entries (this w) !! i = Some e → lookup_entry i w = (w, inr e).
Proof.
  intros H. unfold lookup_entry. rewrite bind_get. now rewrite H.
Qed.

Lemma file_data_lookup (d : FS) (name : string) (data : list byte) :
  d !! name = Some data → file_data d name = data.
Proof. intros H. unfold file_data. now rewrite H. Qed.

Lemma file_data_insert (d : FS) (name : string) (data : list byte) :
  file_data (<[name := data]> d) name = data.
Proof. unfold file_data. now rewrite lookup_insert_eq. Qed.

(** Writing at the end of a file appends. *)
Lemma write_at_end (bs data : list byte) :
  write_at (length data) bs data = data ++ bs.
Proof.
  unfold write_at.
  rewrite firstn_all, Nat.sub_diag. cbn [replicate].
  rewrite skipn_all2 by lia. now rewrite app_nil_r.
Qed.

(** ** Parsing the header table *)

Lemma load_row_ok d ents name p wr fname tot eo md i :
  let data := file_data d name in
  length (row_bytes data i) = 12%nat →
  flag_ok (row_flag data i) = true →
  load_row (Z.of_nat i) tt
    (World d (OBT.mk ents (Some (mkIO name p true wr)) fname tot eo md))
  = (World d (OBT.mk (<[Z.of_nat i := row_entry data i]> ents)
                (Some (mkIO name (Z.of_nat i * 12 + 12) true wr))
                fname (tot + row_size data i) eo md), inr tt).
Proof.
  intros data Hlen Hc.
  unfold load_row.
  erewrite bind_inr by (apply fp_seek_run; lia).
  erewrite bind_inr by (apply fp_read_run; lia).
  cbn [io_name io_readable io_writable].
  replace (Z.to_nat (Z.of_nat i * 12)) with (12 * i)%nat by lia.
  change (Z.to_nat 12) with 12%nat.
  fold data. fold (row_bytes data i).
  unfold struct_unpack_III. rewrite Hlen. cbn [Nat.eqb].
  rewrite bind_lift_inr.
  unfold flag_ok, row_flag, row_at in Hc. cbn [snd] in Hc.
  rewrite Hc. cbn [negb].
  rewrite bind_modify.
  erewrite bind_inr by (apply lookup_entry_run; cbn; apply lookup_insert_eq).
  unfold OBTEntry.load. rewrite bind_lift_inr, bind_modify.
  unfold modify, set_total_size, set_entries. cbn.
  rewrite insert_insert_eq.
  reflexivity.
Qed.

Lemma load_row_bad d ents name p wr fname tot eo md i :
  let data := file_data d name in
  length (row_bytes data i) = 12%nat →
  flag_ok (row_flag data i) = false →
  load_row (Z.of_nat i) tt
    (World d (OBT.mk ents (Some (mkIO name p true wr)) fname tot eo md))
  = (World d (OBT.mk ents (Some (mkIO name (Z.of_nat i * 12 + 12) true wr))
                fname tot eo md),
     inl (OBTError "Unknown compression method")).
Proof.
  intros data Hlen Hc.
  unfold load_row.
  erewrite bind_inr by (apply fp_seek_run; lia).
  erewrite bind_inr by (apply fp_read_run; lia).
  cbn [io_name io_readable io_writable].
  replace (Z.to_nat (Z.of_nat i * 12)) with (12 * i)%nat by lia.
  change (Z.to_nat 12) with 12%nat.
  fold data. fold (row_bytes data i).
  unfold struct_unpack_III. rewrite Hlen. cbn [Nat.eqb].
  rewrite bind_lift_inr.
  unfold flag_ok, row_flag, row_at in Hc. cbn [snd] in Hc.
  rewrite Hc. reflexivity.
Qed.

Lemma row_bytes_length (data : list byte) (i : nat) :
  (12 * (i + 1) <= length data)%nat → length (row_bytes data i) = 12%nat.
Proof.
  intros H. unfold row_bytes. rewrite length_take, length_drop. lia.
Qed.

(** The loop of [load] over rows that are all well formed binds them all. *)
Lemma load_rows_ok d name wr fname eo md (l : list nat) :
  let data := file_data d name in
  Forall (row_good data) l →
  ∀ ents p tot, ∃ p',
    for_in (Z.of_nat <$> l) load_row tt
      (World d (OBT.mk ents (Some (mkIO name p true wr)) fname tot eo md))
    = (World d (OBT.mk (bind_rows data l ents) (Some (mkIO name p' true wr))
                  fname (tot + declared_size data l) eo md), inr tt).
Proof.
  intros data Hall. induction Hall as [|i l [Hlen Hflag] _ IH]; intros ents p tot.
  - exists p. cbn. now rewrite Z.add_0_r.
  - cbn [fmap list_fmap for_in].
    erewrite bind_inr by (apply load_row_ok; assumption).
    destruct (IH (<[Z.of_nat i := row_entry data i]> ents)
                 (Z.of_nat i * 12 + 12) (tot + row_size data i)) as [p' Hp'].
    exists p'. fold data. rewrite Hp'. cbn [bind_rows foldl declared_size foldr].
    now rewrite Z.add_assoc.
Qed.

(** The loop stops at the first row with an unknown flag: the rows before
    it stay bound. *)
Lemma load_rows_bad d name wr fname eo md (l1 l2 : list nat) (j : nat) :
  let data := file_data d name in
  Forall (row_good data) l1 →
  length (row_bytes data j) = 12%nat →
  flag_ok (row_flag data j) = false →
  ∀ ents p tot, ∃ p',
    for_in (Z.of_nat <$> (l1 ++ j :: l2)) load_row tt
      (World d (OBT.mk ents (Some (mkIO name p true wr)) fname tot eo md))
    = (World d (OBT.mk (bind_rows data l1 ents) (Some (mkIO name p' true wr))
                  fname (tot + declared_size data l1) eo md),
       inl (OBTError "Unknown compression method")).
Proof.
  intros data Hall Hlen Hbad.
  induction Hall as [|i l [Hleni Hflag] _ IH]; intros ents p tot.
  - exists (Z.of_nat j * 12 + 12). cbn [app fmap list_fmap for_in].
    erewrite bind_inl by (apply load_row_bad; assumption).
    cbn. now rewrite Z.add_0_r.
  - cbn [app fmap list_fmap for_in].
    erewrite bind_inr by (apply load_row_ok; assumption).
    destruct (IH (<[Z.of_nat i := row_entry data i]> ents)
                 (Z.of_nat i * 12 + 12) (tot + row_size data i)) as [p' Hp'].
    exists p'. fold data. cbn [app fmap list_fmap] in Hp'. rewrite Hp'.
    cbn [bind_rows foldl declared_size foldr].
    now rewrite Z.add_assoc.
Qed.

(** A list with a bad row splits at its first bad row. *)
Lemma first_bad_row (data : list byte) (l : list nat) :
  Forall (fun i => length (row_bytes data i) = 12%nat) l →
  Exists (fun i => flag_ok (row_flag data i) = false) l →
  ∃ l1 j l2, l = l1 ++ j :: l2 ∧ Forall (row_good data) l1
             ∧ length (row_bytes data j) = 12%nat
             ∧ flag_ok (row_flag data j) = false.
Proof.
  induction l as [|i l IH]; intros Hlen Hex.
  - inversion Hex.
  - inversion Hlen as [|? ? Hi Hl]; subst.
    destruct (flag_ok (row_flag data i)) eqn:E.
    + inversion Hex as [? ? Hbad|? ? Hrest]; subst; [congruence|].
      destruct (IH Hl Hrest) as (l1 & j & l2 & -> & Hgood & Hj & Hb).
      exists (i :: l1), j, l2. repeat split; try assumption.
      constructor; [split; assumption|assumption].
    + exists [], i, l. repeat split; try assumption. constructor.
Qed.

(** All the rows [load] visits lie inside the header, which lies inside the
    file. *)
Lemma rows_in_header (data : list byte) :
  header_size data <= Z.of_nat (length data) →
  Forall (fun i => length (row_bytes data i) = 12%nat) (seq 0 (row_count data)).
Proof.
  intros H. apply Forall_forall. intros i Hi.
  apply elem_of_seq in Hi. apply row_bytes_length.
  unfold row_count in Hi.
  assert (0 <= header_size data) by apply int_from_bytes_nonneg.
  assert (Z.of_nat i < header_size data / 12) by lia.
  assert (12 * (header_size data / 12) <= header_size data)
    by (apply Z.mul_div_le; lia).
  lia.
Qed.

Lemma open_rb_run d ents fp0 name tot eo md (data : list byte) :
  d !! name = Some data →
  open_rb (World d (OBT.mk ents fp0 name tot eo md))
  = (World d (OBT.mk ents (Some (mkIO name 0 true false)) name tot eo md),
     inr tt).
Proof.
  intros Hd. unfold open_rb. rewrite bind_get.
  cbn [this disk OBT.filename]. unfold isfile. now rewrite Hd.
Qed.

(** [load] up to its loop, on an unopened archive whose file holds a
    readable header. *)
Lemma load_to_loop d ents fp0 name tot eo (data : list byte) :
  d !! name = Some data →
  4 <= Z.of_nat (length data) →
  header_size data <= Z.of_nat (length data) →
  load (World d (OBT.mk ents fp0 name tot eo OBT_None))
  = (for_in (Z.of_nat <$> seq 0 (row_count data)) load_row tt ;;
     w' <- get ;;
     if Z.of_nat (length data) <? OBT.total_size (this w')
     then raise (InvalidOBTFileError "Not enough data in file")
     else modify (set_mode OBT_Read))
      (World d (OBT.mk ents (Some (mkIO name 4 true false)) name
                  (tot + header_size data) eo OBT_None)).
Proof.
  intros Hd H4 Hh.
  unfold load. rewrite bind_get. cbn [this disk OBT.mode OBT.filename mode_eqb negb].
  unfold isfile, getsize. rewrite (file_data_lookup _ _ _ Hd), Hd. cbn [negb].
  destruct (Z.of_nat (length data) <? 4) eqn:E4; [lia|].
  erewrite bind_inr by (eapply open_rb_run; eassumption).
  erewrite bind_inr by (apply fp_seek_run; lia).
  erewrite bind_inr by (apply fp_read_run; lia).
  cbn [io_name io_readable io_writable].
  rewrite (file_data_lookup _ _ _ Hd).
  change (Z.to_nat 0) with 0%nat. change (Z.to_nat 4) with 4%nat.
  rewrite drop_0. fold (header_size data).
  destruct (Z.of_nat (length data) <? header_size data) eqn:Eh; [lia|].
  rewrite bind_modify. unfold set_total_size at 1.
  cbn [this disk OBT.entries OBT.fp OBT.filename OBT.total_size OBT.entry_offset OBT.mode].
  rewrite length_take. replace (4 `min` length data)%nat with 4%nat by lia.
  reflexivity.
Qed.

Lemma bind_rows_app (data : list byte) (l1 l2 : list nat) ents :
  bind_rows data (l1 ++ l2) ents = bind_rows data l2 (bind_rows data l1 ents).
Proof. unfold bind_rows. apply foldl_app. Qed.

Lemma bind_rows_lookup (data : list byte) (l : list nat) ents (i : nat) :
  i ∈ l → bind_rows data l ents !! Z.of_nat i = Some (row_entry data i).
Proof.
  revert ents. induction l as [|j l IH] using rev_ind; intros ents Hi.
  - inversion Hi.
  - rewrite bind_rows_app. cbn [bind_rows foldl].
    destruct (decide (j = i)) as [->|Hne].
    + apply lookup_insert_eq.
    + rewrite lookup_insert_ne by lia.
      apply IH. apply elem_of_app in Hi as [Hi|Hi]; [assumption|].
      apply list_elem_of_singleton in Hi. congruence.
Qed.

Lemma bind_rows_lookup_other (data : list byte) (l : list nat) ents (z : Z) :
  (∀ i, i ∈ l → Z.of_nat i ≠ z) →
  bind_rows data l ents !! z = ents !! z.
Proof.
  revert ents. induction l as [|j l IH]; intros ents Hz; [reflexivity|].
  cbn [bind_rows foldl]. change (foldl _ ?e l) with (bind_rows data l e).
  rewrite IH by (intros i Hi; apply Hz; now right).
  apply lookup_insert_ne. apply Hz. now left.
Qed.

Lemma Forall_row_good (data : list byte) (l : list nat) :
  Forall (fun i => length (row_bytes data i) = 12%nat) l →
  Forall (fun i => flag_ok (row_flag data i) = true) l →
  Forall (row_good data) l.
Proof.
  intros H1 H2. apply Forall_forall. intros i Hi. split.
  - eapply Forall_forall in H1; eauto.
  - eapply Forall_forall in H2; eauto.
Qed.

(** The three ways [load] ends once the header is readable. *)
Lemma load_ok d ents fp0 name tot eo (data : list byte) :
  d !! name = Some data →
  4 <= Z.of_nat (length data) →
  header_size data <= Z.of_nat (length data) →
  Forall (fun i => flag_ok (row_flag data i) = true) (seq 0 (row_count data)) →
  tot + header_size data + declared_size data (seq 0 (row_count data))
    <= Z.of_nat (length data) →
  ∃ p',
    load (World d (OBT.mk ents fp0 name tot eo OBT_None))
    = (World d (OBT.mk (bind_rows data (seq 0 (row_count data)) ents)
                  (Some (mkIO name p' true false)) name
                  (tot + header_size data
                     + declared_size data (seq 0 (row_count data)))
                  eo OBT_Read), inr tt).
Proof.
  intros Hd H4 Hh Hflags Hsz.
  rewrite (load_to_loop _ _ _ _ _ _ data) by assumption.
  pose proof (Forall_row_good _ _ (rows_in_header data Hh) Hflags) as Hgood.
  pose proof (load_rows_ok d name false name eo OBT_None
                (seq 0 (row_count data))) as L.
  cbv zeta in L. rewrite (file_data_lookup _ _ _ Hd) in L.
  destruct (L Hgood ents 4 (tot + header_size data)) as [p' Hp'].
  exists p'. erewrite bind_inr by exact Hp'.
  rewrite bind_get.
  cbn [this OBT.total_size].
  destruct (_ <? _) eqn:E; [lia|]. reflexivity.
Qed.

Lemma load_not_enough d ents fp0 name tot eo (data : list byte) :
  d !! name = Some data →
  4 <= Z.of_nat (length data) →
  header_size data <= Z.of_nat (length data) →
  Forall (fun i => flag_ok (row_flag data i) = true) (seq 0 (row_count data)) →
  Z.of_nat (length data)
    < tot + header_size data + declared_size data (seq 0 (row_count data)) →
  ∃ p',
    load (World d (OBT.mk ents fp0 name tot eo OBT_None))
    = (World d (OBT.mk (bind_rows data (seq 0 (row_count data)) ents)
                  (Some (mkIO name p' true false)) name
                  (tot + header_size data
                     + declared_size data (seq 0 (row_count data)))
                  eo OBT_None),
       inl (InvalidOBTFileError "Not enough data in file")).
Proof.
  intros Hd H4 Hh Hflags Hsz.
  rewrite (load_to_loop _ _ _ _ _ _ data) by assumption.
  pose proof (Forall_row_good _ _ (rows_in_header data Hh) Hflags) as Hgood.
  pose proof (load_rows_ok d name false name eo OBT_None
                (seq 0 (row_count data))) as L.
  cbv zeta in L. rewrite (file_data_lookup _ _ _ Hd) in L.
  destruct (L Hgood ents 4 (tot + header_size data)) as [p' Hp'].
  exists p'. erewrite bind_inr by exact Hp'.
  rewrite bind_get.
  cbn [this OBT.total_size].
  destruct (_ <? _) eqn:E; [|lia]. reflexivity.
Qed.

Lemma load_bad_flag d ents fp0 name tot eo (data : list byte) :
  d !! name = Some data →
  4 <= Z.of_nat (length data) →
  header_size data <= Z.of_nat (length data) →
  Exists (fun i => flag_ok (row_flag data i) = false) (seq 0 (row_count data)) →
  ∃ l1 j l2 p',
    seq 0 (row_count data) = l1 ++ j :: l2
    ∧ Forall (fun i => flag_ok (row_flag data i) = true) l1
    ∧ flag_ok (row_flag data j) = false
    ∧ load (World d (OBT.mk ents fp0 name tot eo OBT_None))
      = (World d (OBT.mk (bind_rows data l1 ents)
                    (Some (mkIO name p' true false)) name
                    (tot + header_size data + declared_size data l1)
                    eo OBT_None),
         inl (OBTError "Unknown compression method")).
Proof.
  intros Hd H4 Hh Hex.
  destruct (first_bad_row data _ (rows_in_header data Hh) Hex)
    as (l1 & j & l2 & Hsplit & Hgood & Hlen & Hbad).
  rewrite (load_to_loop _ _ _ _ _ _ data) by assumption.
  pose proof (load_rows_bad d name false name eo OBT_None l1 l2 j) as L.
  cbv zeta in L. rewrite (file_data_lookup _ _ _ Hd) in L.
  destruct (L Hgood Hlen Hbad ents 4 (tot + header_size data)) as [p' Hp'].
  exists l1, j, l2, p'. repeat split; try assumption.
  - eapply Forall_impl; [exact Hgood|]. now intros i [_ ?].
  - rewrite Hsplit. erewrite bind_inl by exact Hp'. reflexivity.
Qed.

(** ** Rules for triples *)

Section Triples.

Context {A B : Type}.
Implicit Types (I P : world → Prop).

Lemma preserves_ret I (x : A) : preserves I (ret x).
Proof. intros w w' r HI [= <- <-]. exact HI. Qed.

Lemma preserves_raise I (e : exn) : preserves I (raise (A:=A) e).
Proof. intros w w' r HI [= <- <-]. exact HI. Qed.

Lemma preserves_lift I (x : exn + A) : preserves I (lift x).
Proof. intros w w' r HI [= <- <-]. exact HI. Qed.

Lemma preserves_get I : preserves I get.
Proof. intros w w' r HI [= <- <-]. exact HI. Qed.

Lemma preserves_modify I (f : world → world) :
  (∀ w, I w → I (f w)) → preserves I (modify f).
Proof. intros Hf w w' r HI [= <- <-]. now apply Hf. Qed.

Lemma hoare_bind P (R : A → world → Prop) (c : M A) (k : A → M B)
    (Q : exn + B → world → Prop) :
  hoare P c (fun r w => match r with inl e => Q (inl e) w | inr x => R x w end) →
  (∀ x, hoare (R x) (k x) Q) →
  hoare P (bind c k) Q.
Proof.
  intros Hc Hk w w' r HP Hrun. unfold bind in Hrun.
  destruct (c w) as [w1 [e|x]] eqn:E.
  - injection Hrun as <- <-. exact (Hc _ _ _ HP E).
  - exact (Hk x _ _ _ (Hc _ _ _ HP E) Hrun).
Qed.

Lemma preserves_bind I (c : M A) (k : A → M B) :
  preserves I c → (∀ x, preserves I (k x)) → preserves I (bind c k).
Proof.
  intros Hc Hk. apply (hoare_bind I (fun _ => I)); [|exact Hk].
  intros w w' [e|x] HI Hrun; exact (Hc _ _ _ HI Hrun).
Qed.

Lemma preserves_if I (b : bool) (c1 c2 : M A) :
  preserves I c1 → preserves I c2 → preserves I (if b then c1 else c2).
Proof. now destruct b. Qed.

End Triples.

Lemma preserves_for_in {A S} (I : world → Prop) (l : list A)
    (body : A → S → M S) (s : S) :
  (∀ x s, preserves I (body x s)) → preserves I (for_in l body s).
Proof.
  intros Hb. revert s. induction l as [|x l IH]; intros s; cbn [for_in].
  - apply preserves_ret.
  - apply preserves_bind; [apply Hb|]. intros s'. apply IH.
Qed.

(** *** Invariants that only look at part of the world *)

Create HintDb keeps discriminated.

Lemma preserves_fp_seek I n : stable_read I → preserves I (fp_seek n).
Proof.
  intros (Hfp & _). unfold fp_seek.
  apply preserves_bind; [apply preserves_get|]. intros w.
  destruct (OBT.fp (this w)); [|apply preserves_raise].
  apply preserves_if; [apply preserves_raise|].
  apply preserves_modify. intros; now apply Hfp.
Qed.

Lemma preserves_fp_read I n : stable_read I → preserves I (fp_read n).
Proof.
  intros (Hfp & _). unfold fp_read.
  apply preserves_bind; [apply preserves_get|]. intros w.
  destruct (OBT.fp (this w)); [|apply preserves_raise].
  apply preserves_if; [|apply preserves_raise].
  apply preserves_bind; [|intros; apply preserves_ret].
  apply preserves_modify. intros; now apply Hfp.
Qed.

Lemma preserves_lookup_entry I i : preserves I (lookup_entry i).
Proof.
  unfold lookup_entry.
  apply preserves_bind; [apply preserves_get|]. intros w.
  destruct (_ !! _); [apply preserves_ret|apply preserves_raise].
Qed.

Lemma preserves_load_row I i u : stable_read I → preserves I (load_row i u).
Proof.
  intros HI. pose proof HI as (Hfp & Hents & Htot). unfold load_row.
  apply preserves_bind; [now apply preserves_fp_seek|]. intros _.
  apply preserves_bind; [now apply preserves_fp_read|]. intros row.
  apply preserves_bind; [apply preserves_lift|]. intros [[o s] c].
  apply preserves_if; [apply preserves_raise|].
  apply preserves_bind; [apply preserves_modify; intros; now apply Hents|].
  intros _.
  apply preserves_bind; [apply preserves_lookup_entry|]. intros e.
  apply preserves_bind; [apply preserves_lift|]. intros e'.
  apply preserves_bind; [apply preserves_modify; intros; now apply Hents|].
  intros _. apply preserves_modify; intros; now apply Htot.
Qed.

#[export] Hint Resolve preserves_ret preserves_raise preserves_lift
  preserves_get preserves_fp_seek preserves_fp_read preserves_lookup_entry
  preserves_load_row : keeps.

Lemma mode_is_stable m : stable_read (mode_is m).
Proof. repeat split; intros; assumption. Qed.

#[export] Hint Resolve mode_is_stable : keeps.

(** [load] on an unopened archive: the mode is [OBT_Read] when it returns
    and still [OBT_None] when it raises. *)
Lemma load_mode :
  hoare (mode_is OBT_None) load
    (fun r w => match r with
                | inr _ => mode_is OBT_Read w
                | inl _ => mode_is OBT_None w
                end).
Proof.
  unfold load.
  eapply hoare_bind with (R := fun _ => mode_is OBT_None).
  { intros w w' r H [= <- <-]. exact H. }
  intros w0.
  destruct (negb _); [intros w w' r H [= <- <-]; exact H|].
  destruct (negb _); [intros w w' r H [= <- <-]; exact H|].
  destruct (_ <? 4); [intros w w' r H [= <- <-]; exact H|].
  assert (Hkeep : ∀ X (c : M X), preserves (mode_is OBT_None) c →
            hoare (mode_is OBT_None) c
              (fun r w => match r with
                          | inl _ => mode_is OBT_None w
                          | inr _ => mode_is OBT_None w
                          end)).
  { intros X c Hc w w' [e|x] H Hrun; exact (Hc _ _ _ H Hrun). }
  eapply hoare_bind with (R := fun _ => mode_is OBT_None).
  { apply Hkeep. unfold open_rb.
    apply preserves_bind; [auto with keeps|]. intros w.
    apply preserves_if; [|auto with keeps].
    apply preserves_modify. intros; assumption. }
  intros _.
  eapply hoare_bind with (R := fun _ => mode_is OBT_None).
  { apply Hkeep. auto with keeps. }
  intros _.
  eapply hoare_bind with (R := fun _ => mode_is OBT_None).
  { apply Hkeep. auto with keeps. }
  intros head.
  destruct (_ <? _); [intros w w' r H [= <- <-]; exact H|].
  eapply hoare_bind with (R := fun _ => mode_is OBT_None).
  { apply Hkeep. apply preserves_modify. intros; assumption. }
  intros _.
  eapply hoare_bind with (R := fun _ => mode_is OBT_None).
  { apply Hkeep. apply preserves_for_in. auto with keeps. }
  intros _.
  eapply hoare_bind with (R := fun _ => mode_is OBT_None).
  { apply Hkeep. auto with keeps. }
  intros w1.
  destruct (_ <? _); intros w w' r H [= <- <-]; [exact H|reflexivity].
Qed.

(** ** The writer *)

Lemma entries_of_lookup_lt (k z : Z) l : z < k → entries_of k l !! z = None.
Proof.
  revert k. induction l as [|x l IH]; intros k Hz; cbn [entries_of].
  - apply lookup_empty.
  - rewrite lookup_insert_ne by lia. apply IH. lia.
Qed.

Lemma entries_of_lookup (k : Z) l (i : nat) :
  entries_of k l !! (k + Z.of_nat i) = blob_entry <$> l !! i.
Proof.
  revert k i. induction l as [|x l IH]; intros k i; cbn [entries_of].
  - now rewrite lookup_empty, lookup_nil.
  - destruct i as [|i].
    + rewrite Z.add_0_r, lookup_insert_eq. reflexivity.
    + rewrite lookup_insert_ne by lia.
      replace (k + Z.of_nat (S i)) with (k + 1 + Z.of_nat i) by lia.
      rewrite IH. reflexivity.
Qed.

Lemma entries_of_size (k : Z) l : size (entries_of k l) = length l.
Proof.
  revert k. induction l as [|x l IH]; intros k; cbn [entries_of length].
  - apply map_size_empty.
  - rewrite map_size_insert_None by (apply entries_of_lookup_lt; lia).
    now rewrite IH.
Qed.

Lemma entries_of_snoc (k : Z) l x :
  <[k + Z.of_nat (length l) := blob_entry x]> (entries_of k l)
  = entries_of k (l ++ [x]).
Proof.
  revert k. induction l as [|y l IH]; intros k; cbn [entries_of length app].
  - now rewrite Z.add_0_r.
  - rewrite insert_insert_ne by lia. f_equal.
    rewrite <- IH. f_equal. lia.
Qed.

Lemma add_entry_run d ents fp0 name tot eo b f :
  add_entry b f (World d (OBT.mk ents fp0 name tot eo OBT_Write))
  = (World d (OBT.mk (<[eo := blob_entry (b, f)]> ents) fp0 name tot (eo + 1)
                OBT_Write), inr tt).
Proof. reflexivity. Qed.

Lemma add_entries_run d fp0 name tot (blobs done : list (list byte * bool)) :
  add_entries blobs
    (World d (OBT.mk (entries_of 0 done) fp0 name tot
                (Z.of_nat (length done)) OBT_Write))
  = (World d (OBT.mk (entries_of 0 (done ++ blobs)) fp0 name tot
                (Z.of_nat (length (done ++ blobs))) OBT_Write), inr tt).
Proof.
  revert done. unfold add_entries.
  induction blobs as [|[b f] blobs IH]; intros done; cbn [for_in].
  - now rewrite app_nil_r.
  - erewrite bind_inr by apply add_entry_run.
    pose proof (entries_of_snoc 0 done (b, f)) as Hs.
    rewrite Z.add_0_l in Hs. rewrite Hs.
    replace (Z.of_nat (length done) + 1)
      with (Z.of_nat (length (done ++ [(b, f)])))
      by (rewrite length_app; cbn; lia).
    rewrite IH. now rewrite <- app_assoc.
Qed.

Lemma init_write_run d name (overwrite : bool) :
  d !! name = None ∨ overwrite = true →
  init_write overwrite (fresh d name)
  = (World (<[name := []]> d)
       (OBT.mk ∅ (Some (mkIO name 0 true true)) name 0 0 OBT_Write), inr tt).
Proof.
  intros H. unfold init_write, fresh. rewrite bind_get.
  cbn [this disk OBT.init OBT.mode OBT.filename mode_eqb negb].
  replace (isfile d name && negb overwrite) with false; [reflexivity|].
  unfold isfile. destruct H as [-> | ->]; [reflexivity|].
  now rewrite andb_false_r.
Qed.

Lemma pack_I_ok (v : Z) :
  0 <= v < U32_LIMIT → pack_I v = inr (int_to_bytes 4 v).
Proof.
  intros Hv. unfold pack_I.
  destruct (0 <=? v) eqn:E1; [|lia]. destruct (v <? U32_LIMIT) eqn:E2; [|lia].
  reflexivity.
Qed.

Lemma pack_I_flag (f : bool) : pack_I (Z.b2z f) = inr (int_to_bytes 4 (Z.b2z f)).
Proof. now destruct f. Qed.

Lemma struct_pack_III_ok (a b : Z) (f : bool) :
  0 <= a < U32_LIMIT → 0 <= b < U32_LIMIT →
  struct_pack_III a b (Z.b2z f)
  = inr (int_to_bytes 4 a ++ int_to_bytes 4 b ++ int_to_bytes 4 (Z.b2z f)).
Proof.
  intros Ha Hb. unfold struct_pack_III.
  now rewrite (pack_I_ok a Ha), (pack_I_ok b Hb), pack_I_flag.
Qed.

Lemma struct_pack_III_overflow (a b c : Z) :
  U32_LIMIT <= a ∨ U32_LIMIT <= b → struct_pack_III a b c = inl StructError.
Proof.
  intros H. unfold struct_pack_III, pack_I.
  destruct ((0 <=? a) && (a <? U32_LIMIT)) eqn:Ea; [|reflexivity].
  destruct ((0 <=? b) && (b <? U32_LIMIT)) eqn:Eb; [|reflexivity].
  apply andb_prop in Ea as [_ Ea], Eb as [_ Eb]. lia.
Qed.

Lemma blob_size_nonneg x : 0 <= blob_size x.
Proof. unfold blob_size. lia. Qed.

Lemma header_bytes_length off l :
  length (header_bytes off l) = (12 * length l)%nat.
Proof.
  revert off. induction l as [|x l IH]; intros off; cbn [header_bytes length].
  - reflexivity.
  - rewrite !length_app, !length_int_to_bytes, IH. lia.
Qed.

Section WriteLoops.

Variables (ents : gmap Z OBTEntry.t) (name fname : string) (rd : bool)
  (tot eo : Z) (md : OBTFileMode).

(** The world the loops run in, for the section's archive. *)
Local Abbreviation now_at d p := (writing ents name fname rd tot eo md d p).

Lemma run_eq {A} d p p' (x x' : A) :
  p = p' → x = x' →
  (now_at d p, inr x) = (now_at d p', inr (A:=exn) x').
Proof. now intros -> ->. Qed.

Ltac close_run :=
  unfold ret; apply run_eq; [lia | first [reflexivity | lia]].

Lemma write_row_run d (pre : list byte) (i off : Z) x :
  ents !! i = Some (blob_entry x) →
  d !! name = Some pre →
  0 <= off < U32_LIMIT → blob_size x < U32_LIMIT →
  write_row i off (now_at d (Z.of_nat (length pre)))
  = (now_at (<[name := pre ++ header_bytes off [x]]> d)
       (Z.of_nat (length pre) + 12), inr (off + blob_size x)).
Proof.
  intros Hi Hd Hoff Hsz. unfold write_row, writing.
  erewrite bind_inr by (apply lookup_entry_run; exact Hi).
  cbn [blob_entry OBTEntry.size OBTEntry.is_compressed].
  rewrite struct_pack_III_ok by (pose proof (blob_size_nonneg x); lia).
  rewrite bind_lift_inr.
  erewrite bind_inr by apply fp_write_run.
  rewrite (file_data_lookup _ _ _ Hd), Nat2Z.id, write_at_end.
  rewrite !length_app, !length_int_to_bytes.
  cbn [header_bytes]. rewrite app_nil_r. reflexivity.
Qed.

Lemma write_rows_ok (rest : list (list byte * bool)) :
  ∀ (k : nat) (off : Z) d (pre : list byte),
    (∀ i x, rest !! i = Some x →
            ents !! Z.of_nat (k + i) = Some (blob_entry x)) →
    d !! name = Some pre →
    fits_u32 off rest = true →
    for_in (Z.of_nat <$> seq k (length rest)) write_row off
      (now_at d (Z.of_nat (length pre)))
    = (now_at (<[name := pre ++ header_bytes off rest]> d)
         (Z.of_nat (length pre) + 12 * Z.of_nat (length rest)),
       inr (off + total_sizes rest)).
Proof.
  induction rest as [|x rest IH]; intros k off d pre Hents Hd Hfits.
  - cbn [length seq fmap list_fmap for_in header_bytes payload_bytes concat
         total_sizes foldr].
    rewrite app_nil_r, insert_id by assumption. close_run.
  - cbn [fits_u32] in Hfits.
    apply andb_prop in Hfits as [Hfits Hrest].
    apply andb_prop in Hfits as [Hfits Hsz].
    apply andb_prop in Hfits as [Hlo Hhi].
    apply Z.leb_le in Hlo. apply Z.ltb_lt in Hhi, Hsz.
    cbn [length seq fmap list_fmap for_in].
    erewrite bind_inr.
    2:{ apply write_row_run with (x := x); [|exact Hd|lia|lia].
        specialize (Hents 0%nat x eq_refl). now rewrite Nat.add_0_r in Hents. }
    replace (Z.of_nat (length pre) + 12)
      with (Z.of_nat (length (pre ++ header_bytes off [x])))
      by (rewrite length_app, header_bytes_length; cbn [length]; lia).
    rewrite (IH (S k) (off + blob_size x) _ (pre ++ header_bytes off [x])).
    + rewrite insert_insert_eq.
      cbn [header_bytes total_sizes foldr]. rewrite app_nil_r, <- !app_assoc.
      fold (total_sizes rest).
      rewrite !length_app, !length_int_to_bytes. cbn [length].
      close_run.
    + intros i y Hy. specialize (Hents (S i) y Hy).
      now replace (S k + i)%nat with (k + S i)%nat by lia.
    + apply lookup_insert_eq.
    + exact Hrest.
Qed.

Lemma write_rows_overflow (rest : list (list byte * bool)) :
  ∀ (k : nat) (off : Z) d (pre : list byte),
    (∀ i x, rest !! i = Some x →
            ents !! Z.of_nat (k + i) = Some (blob_entry x)) →
    d !! name = Some pre →
    0 <= off →
    fits_u32 off rest = false →
    ∃ w', for_in (Z.of_nat <$> seq k (length rest)) write_row off
            (now_at d (Z.of_nat (length pre)))
          = (w', inl StructError).
Proof.
  induction rest as [|x rest IH]; intros k off d pre Hents Hd Hoff Hfits.
  - discriminate.
  - cbn [fits_u32] in Hfits.
    cbn [length seq fmap list_fmap for_in].
    pose proof (blob_size_nonneg x) as Hx.
    destruct (decide (off < U32_LIMIT ∧ blob_size x < U32_LIMIT)) as [[H1 H2]|Hbig].
    + erewrite bind_inr.
      2:{ apply write_row_run with (x := x); [|exact Hd|lia|lia].
          specialize (Hents 0%nat x eq_refl). now rewrite Nat.add_0_r in Hents. }
      replace (Z.of_nat (length pre) + 12)
        with (Z.of_nat (length (pre ++ header_bytes off [x])))
        by (rewrite length_app, header_bytes_length; cbn [length]; lia).
      apply (IH (S k) (off + blob_size x) _ (pre ++ header_bytes off [x])).
      * intros i y Hy. specialize (Hents (S i) y Hy).
        now replace (S k + i)%nat with (k + S i)%nat by lia.
      * apply lookup_insert_eq.
      * lia.
      * destruct (0 <=? off) eqn:E0; [|lia].
        destruct (off <? U32_LIMIT) eqn:E1; [|lia].
        destruct (blob_size x <? U32_LIMIT) eqn:E2; [|lia].
        exact Hfits.
    + eexists. unfold write_row at 1.
      erewrite bind_inl; [reflexivity|].
      erewrite bind_inr.
      2:{ apply lookup_entry_run. cbn [writing this OBT.entries].
          specialize (Hents 0%nat x eq_refl). rewrite Nat.add_0_r in Hents.
          exact Hents. }
      cbn [blob_entry OBTEntry.size OBTEntry.is_compressed].
      rewrite struct_pack_III_overflow by lia.
      reflexivity.
Qed.

Lemma write_payload_run d (pre : list byte) (i : Z) x :
  ents !! i = Some (blob_entry x) →
  d !! name = Some pre →
  write_payload i tt (now_at d (Z.of_nat (length pre)))
  = (now_at (<[name := pre ++ fst x]> d)
       (Z.of_nat (length pre) + blob_size x), inr tt).
Proof.
  intros Hi Hd. unfold write_payload, writing.
  erewrite bind_inr by (apply lookup_entry_run; exact Hi).
  cbn [blob_entry OBTEntry.raw_entry].
  rewrite fp_write_run.
  rewrite (file_data_lookup _ _ _ Hd), Nat2Z.id, write_at_end.
  reflexivity.
Qed.

Lemma write_payloads_ok (rest : list (list byte * bool)) :
  ∀ (k : nat) d (pre : list byte),
    (∀ i x, rest !! i = Some x →
            ents !! Z.of_nat (k + i) = Some (blob_entry x)) →
    d !! name = Some pre →
    for_in (Z.of_nat <$> seq k (length rest)) write_payload tt
      (now_at d (Z.of_nat (length pre)))
    = (now_at (<[name := pre ++ payload_bytes rest]> d)
         (Z.of_nat (length pre) + total_sizes rest), inr tt).
Proof.
  induction rest as [|x rest IH]; intros k d pre Hents Hd.
  - cbn [length seq fmap list_fmap for_in header_bytes payload_bytes concat
         total_sizes foldr].
    rewrite app_nil_r, insert_id by assumption. close_run.
  - cbn [length seq fmap list_fmap for_in].
    erewrite bind_inr.
    2:{ apply write_payload_run with (x := x); [|exact Hd].
        specialize (Hents 0%nat x eq_refl). now rewrite Nat.add_0_r in Hents. }
    replace (Z.of_nat (length pre) + blob_size x)
      with (Z.of_nat (length (pre ++ fst x)))
      by (rewrite length_app; unfold blob_size; lia).
    rewrite (IH (S k) _ (pre ++ fst x)).
    + rewrite insert_insert_eq.
      unfold payload_bytes. cbn [fmap list_fmap concat total_sizes foldr].
      rewrite <- app_assoc.
      rewrite length_app. fold (total_sizes rest). unfold blob_size.
      close_run.
    + intros i y Hy. specialize (Hents (S i) y Hy).
      now replace (S k + i)%nat with (k + S i)%nat by lia.
    + apply lookup_insert_eq.
Qed.

End WriteLoops.

Lemma entries_of_0_lookup (blobs : list (list byte * bool)) (i : nat) x :
  blobs !! i = Some x →
  entries_of 0 blobs !! Z.of_nat (0 + i) = Some (blob_entry x).
Proof.
  intros Hx. pose proof (entries_of_lookup 0 blobs i) as H.
  rewrite Z.add_0_l, Hx in H. exact H.
Qed.

Lemma archive_bytes_length (blobs : list (list byte * bool)) :
  Z.of_nat (length (archive_bytes blobs))
  = 12 * Z.of_nat (length blobs) + total_sizes blobs.
Proof.
  unfold archive_bytes. rewrite length_app, header_bytes_length.
  assert (Z.of_nat (length (payload_bytes blobs)) = total_sizes blobs) as <-;
    [|lia].
  induction blobs as [|x l IH]; [reflexivity|].
  unfold payload_bytes in *. cbn [fmap list_fmap concat total_sizes foldr].
  rewrite length_app. fold (total_sizes l). unfold blob_size. lia.
Qed.

(** [finalize_write] after the payloads [blobs] were added to a newly
    opened file: the file becomes the archive of [blobs]. *)
Lemma finalize_write_ok d name fname rd tot eo (blobs : list (list byte * bool)) :
  blobs ≠ [] →
  d !! name = Some [] →
  fits_u32 (12 * Z.of_nat (length blobs)) blobs = true →
  finalize_write
    (World d (OBT.mk (entries_of 0 blobs) (Some (mkIO name 0 rd true))
                fname tot eo OBT_Write))
  = (World (<[name := archive_bytes blobs]> d)
       (OBT.mk (entries_of 0 blobs)
          (Some (mkIO name (Z.of_nat (length (archive_bytes blobs))) rd true))
          fname tot eo OBT_Write), inr tt).
Proof.
  intros Hne Hd Hfits. unfold finalize_write. rewrite bind_get.
  cbn [this OBT.mode OBT.entries mode_eqb negb].
  rewrite entries_of_size.
  destruct (Z.of_nat (length blobs) =? 0) eqn:E1.
  { apply Z.eqb_eq in E1. destruct blobs; [congruence|cbn [length] in E1; lia]. }
  erewrite bind_inr by (apply fp_seek_run; lia).
  cbn [io_name io_readable io_writable].
  unfold range. rewrite Nat2Z.id.
  replace (12 * Z.of_nat (length blobs)) with (Z.of_nat (length blobs) * 12)
    in Hfits by lia.
  pose proof (write_rows_ok (entries_of 0 blobs) name fname rd tot eo OBT_Write
                blobs 0 (Z.of_nat (length blobs) * 12) d []
                (entries_of_0_lookup blobs) Hd Hfits) as Hrows.
  unfold writing in Hrows.
  change (Z.of_nat (length (@nil byte))) with 0 in Hrows.
  rewrite app_nil_l in Hrows.
  erewrite bind_inr by exact Hrows.
  set (hdr := header_bytes (Z.of_nat (length blobs) * 12) blobs) in *.
  pose proof (write_payloads_ok (entries_of 0 blobs) name fname rd tot eo
                OBT_Write blobs 0 (<[name := hdr]> d) hdr
                (entries_of_0_lookup blobs) (lookup_insert_eq _ _ _)) as Hpay.
  unfold writing in Hpay.
  replace (Z.of_nat (length hdr)) with (0 + 12 * Z.of_nat (length blobs))
    in Hpay by (subst hdr; rewrite header_bytes_length; lia).
  rewrite insert_insert_eq in Hpay. rewrite Hpay.
  rewrite archive_bytes_length. unfold archive_bytes. subst hdr.
  rewrite (Z.mul_comm 12), Z.add_0_l. reflexivity.
Qed.

Lemma finalize_write_overflow d name fname rd tot eo
    (blobs : list (list byte * bool)) :
  blobs ≠ [] →
  d !! name = Some [] →
  fits_u32 (12 * Z.of_nat (length blobs)) blobs = false →
  ∃ w',
    finalize_write
      (World d (OBT.mk (entries_of 0 blobs) (Some (mkIO name 0 rd true))
                  fname tot eo OBT_Write))
    = (w', inl StructError).
Proof.
  intros Hne Hd Hfits. unfold finalize_write. rewrite bind_get.
  cbn [this OBT.mode OBT.entries mode_eqb negb].
  rewrite entries_of_size.
  destruct (Z.of_nat (length blobs) =? 0) eqn:E1.
  { apply Z.eqb_eq in E1. destruct blobs; [congruence|cbn [length] in E1; lia]. }
  erewrite bind_inr by (apply fp_seek_run; lia).
  cbn [io_name io_readable io_writable].
  unfold range. rewrite Nat2Z.id.
  replace (12 * Z.of_nat (length blobs)) with (Z.of_nat (length blobs) * 12)
    in Hfits by lia.
  destruct (write_rows_overflow (entries_of 0 blobs) name fname rd tot eo
              OBT_Write blobs 0 (Z.of_nat (length blobs) * 12) d []
              (entries_of_0_lookup blobs) Hd ltac:(lia) Hfits) as [w' Hrows].
  unfold writing in Hrows.
  change (Z.of_nat (length (@nil byte))) with 0 in Hrows.
  exists w'. erewrite bind_inl by exact Hrows. reflexivity.
Qed.

(** The whole writer on a new archive object. *)
Lemma write_archive_ok d name (overwrite : bool)
    (blobs : list (list byte * bool)) :
  blobs ≠ [] →
  d !! name = None ∨ overwrite = true →
  fits_u32 (12 * Z.of_nat (length blobs)) blobs = true →
  write_archive overwrite blobs (fresh d name)
  = (World (<[name := archive_bytes blobs]> d)
       (OBT.mk (entries_of 0 blobs)
          (Some (mkIO name (Z.of_nat (length (archive_bytes blobs))) true true))
          name 0 (Z.of_nat (length blobs)) OBT_Write), inr tt).
Proof.
  intros Hne Hfree Hfits. unfold write_archive.
  erewrite bind_inr by (apply init_write_run; exact Hfree).
  erewrite bind_inr by (apply (add_entries_run _ _ _ _ blobs [])).
  cbn [app].
  rewrite finalize_write_ok; [|assumption|apply lookup_insert_eq|assumption].
  now rewrite insert_insert_eq.
Qed.

Lemma write_archive_overflow d name (overwrite : bool)
    (blobs : list (list byte * bool)) :
  blobs ≠ [] →
  d !! name = None ∨ overwrite = true →
  fits_u32 (12 * Z.of_nat (length blobs)) blobs = false →
  ∃ w', write_archive overwrite blobs (fresh d name) = (w', inl StructError).
Proof.
  intros Hne Hfree Hfits. unfold write_archive.
  erewrite bind_inr by (apply init_write_run; exact Hfree).
  erewrite bind_inr by (apply (add_entries_run _ _ _ _ blobs [])).
  cbn [app].
  apply finalize_write_overflow; [assumption|apply lookup_insert_eq|assumption].
Qed.

(** ** Reading back what the writer wrote *)

Lemma total_sizes_app (l1 l2 : list (list byte * bool)) :
  total_sizes (l1 ++ l2) = total_sizes l1 + total_sizes l2.
Proof.
  induction l1 as [|x l1 IH]; cbn [app total_sizes foldr]; [reflexivity|].
  fold (total_sizes (l1 ++ l2)) (total_sizes l1). lia.
Qed.

Lemma total_sizes_nonneg (l : list (list byte * bool)) : 0 <= total_sizes l.
Proof.
  induction l as [|x l IH]; cbn [total_sizes foldr]; [lia|].
  fold (total_sizes l). pose proof (blob_size_nonneg x). lia.
Qed.

Lemma payload_bytes_length (l : list (list byte * bool)) :
  Z.of_nat (length (payload_bytes l)) = total_sizes l.
Proof.
  induction l as [|x l IH]; [reflexivity|].
  unfold payload_bytes in *. cbn [fmap list_fmap concat total_sizes foldr].
  rewrite length_app. fold (total_sizes l). unfold blob_size. lia.
Qed.

Lemma payload_bytes_app (l1 l2 : list (list byte * bool)) :
  payload_bytes (l1 ++ l2) = payload_bytes l1 ++ payload_bytes l2.
Proof. unfold payload_bytes. now rewrite fmap_app, concat_app. Qed.

Lemma header_bytes_app off (l1 l2 : list (list byte * bool)) :
  header_bytes off (l1 ++ l2)
  = header_bytes off l1 ++ header_bytes (off + total_sizes l1) l2.
Proof.
  revert off. induction l1 as [|x l1 IH]; intros off;
    cbn [app header_bytes total_sizes foldr].
  - now rewrite Z.add_0_r.
  - fold (total_sizes l1). rewrite IH, <- !app_assoc.
    now rewrite Z.add_assoc.
Qed.

Lemma fits_u32_app off (l1 l2 : list (list byte * bool)) :
  fits_u32 off (l1 ++ l2)
  = fits_u32 off l1 && fits_u32 (off + total_sizes l1) l2.
Proof.
  revert off. induction l1 as [|x l1 IH]; intros off;
    cbn [app fits_u32 total_sizes foldr].
  - now rewrite Z.add_0_r.
  - fold (total_sizes l1). rewrite IH, Z.add_assoc.
    now rewrite !andb_assoc.
Qed.

(** A row that was packed from fields in range unpacks to them. *)
Lemma row_at_packed (pre rest : list byte) (k : nat) (a b c : Z) :
  length pre = (12 * k)%nat →
  0 <= a < U32_LIMIT → 0 <= b < U32_LIMIT → 0 <= c < U32_LIMIT →
  row_at (pre ++ (int_to_bytes 4 a ++ int_to_bytes 4 b ++ int_to_bytes 4 c)
              ++ rest) k
  = (a, b, c).
Proof.
  intros Hpre Ha Hb Hc. unfold row_at, row_bytes.
  rewrite drop_app_length' by lia.
  rewrite take_app_length'
    by (rewrite !length_app, !length_int_to_bytes; reflexivity).
  rewrite take_app_length' by (now rewrite length_int_to_bytes).
  rewrite drop_app_length' by (now rewrite length_int_to_bytes).
  rewrite take_app_length' by (now rewrite length_int_to_bytes).
  change 8%nat with (4 + 4)%nat.
  rewrite drop_app_add' by (now rewrite length_int_to_bytes).
  rewrite drop_app_length' by (now rewrite length_int_to_bytes).
  rewrite firstn_all2 by (now rewrite length_int_to_bytes).
  now rewrite !int_from_to_bytes_4.
Qed.

Lemma fits_u32_cons off x l :
  fits_u32 off (x :: l) = true →
  0 <= off < U32_LIMIT ∧ 0 <= blob_size x < U32_LIMIT
  ∧ fits_u32 (off + blob_size x) l = true.
Proof.
  cbn [fits_u32]. intros H.
  apply andb_prop in H as [H Hrest].
  apply andb_prop in H as [H Hsz].
  apply andb_prop in H as [Hlo Hhi].
  pose proof (blob_size_nonneg x). repeat split; try lia; assumption.
Qed.

Lemma b2z_range (f : bool) : 0 <= Z.b2z f < U32_LIMIT.
Proof. unfold U32_LIMIT. destruct f; cbn; lia. Qed.

(** Row [i] of a header table written for [l]. *)
Lemma row_at_header off (l : list (list byte * bool)) (tail : list byte)
    (i : nat) x :
  fits_u32 off l = true →
  l !! i = Some x →
  row_at (header_bytes off l ++ tail) i
  = (off + total_sizes (take i l), blob_size x, Z.b2z (snd x)).
Proof.
  intros Hfits Hx.
  pose proof (lookup_lt_Some _ _ _ Hx) as Hlt.
  rewrite <- (take_drop_middle _ _ _ Hx) in Hfits |- * at 1.
  rewrite fits_u32_app in Hfits. apply andb_prop in Hfits as [_ Hfits].
  apply fits_u32_cons in Hfits as (Hoff & Hsz & _).
  rewrite header_bytes_app. cbn [header_bytes].
  set (P := header_bytes off (take i l)).
  set (H2 := header_bytes _ (drop (S i) l)).
  set (o := off + total_sizes (take i l)) in *.
  replace ((P ++ (int_to_bytes 4 o ++ int_to_bytes 4 (blob_size x)
                    ++ int_to_bytes 4 (Z.b2z x.2)) ++ H2) ++ tail)
    with (P ++ (int_to_bytes 4 o ++ int_to_bytes 4 (blob_size x)
                  ++ int_to_bytes 4 (Z.b2z x.2)) ++ (H2 ++ tail))
    by (now rewrite <- !app_assoc).
  apply row_at_packed; [|assumption|assumption|apply b2z_range].
  subst P. rewrite header_bytes_length, length_take_le by lia. reflexivity.
Qed.

Lemma header_size_archive (l : list (list byte * bool)) :
  l ≠ [] →
  fits_u32 (12 * Z.of_nat (length l)) l = true →
  header_size (archive_bytes l) = 12 * Z.of_nat (length l).
Proof.
  intros Hne Hfits. destruct l as [|x l]; [congruence|].
  apply fits_u32_cons in Hfits as (Hoff & _ & _).
  unfold header_size, archive_bytes. cbn [header_bytes].
  rewrite <- !app_assoc.
  rewrite take_app_length' by (now rewrite length_int_to_bytes).
  now apply int_from_to_bytes_4.
Qed.

Lemma row_count_archive (l : list (list byte * bool)) :
  l ≠ [] →
  fits_u32 (12 * Z.of_nat (length l)) l = true →
  row_count (archive_bytes l) = length l.
Proof.
  intros Hne Hfits. unfold row_count.
  rewrite header_size_archive by assumption.
  rewrite Z.mul_comm, Z.div_mul by lia. apply Nat2Z.id.
Qed.

Lemma row_entry_archive (l : list (list byte * bool)) (i : nat) x :
  fits_u32 (12 * Z.of_nat (length l)) l = true →
  l !! i = Some x →
  row_entry (archive_bytes l) i
  = OBTEntry.mk (12 * Z.of_nat (length l) + total_sizes (take i l))
      (blob_size x) (Z.b2z (snd x)) true None.
Proof.
  intros Hfits Hx.
  unfold row_entry, row_offset, row_size, row_flag, archive_bytes.
  now rewrite (row_at_header _ _ _ _ _ Hfits Hx).
Qed.

Lemma flags_ok_archive (l : list (list byte * bool)) :
  fits_u32 (12 * Z.of_nat (length l)) l = true →
  Forall (fun i => flag_ok (row_flag (archive_bytes l) i) = true)
         (seq 0 (length l)).
Proof.
  intros Hfits. apply Forall_forall. intros i Hi.
  apply elem_of_seq in Hi.
  destruct (lookup_lt_is_Some_2 l i ltac:(lia)) as [x Hx].
  unfold row_flag, archive_bytes.
  rewrite (row_at_header _ _ _ _ _ Hfits Hx). cbn [snd].
  now destruct (snd x).
Qed.

Lemma declared_size_rows (data : list byte) (l : list (list byte * bool)) :
  ∀ k, (∀ i x, l !! i = Some x → row_size data (k + i) = blob_size x) →
       declared_size data (seq k (length l)) = total_sizes l.
Proof.
  induction l as [|x l IH]; intros k Hrows; [reflexivity|].
  cbn [length seq declared_size foldr total_sizes].
  fold (declared_size data (seq (S k) (length l))) (total_sizes l).
  rewrite (IH (S k)).
  - specialize (Hrows 0%nat x eq_refl). rewrite Nat.add_0_r in Hrows.
    now rewrite Hrows.
  - intros i y Hy. specialize (Hrows (S i) y Hy).
    now replace (S k + i)%nat with (k + S i)%nat by lia.
Qed.

Lemma declared_size_archive (l : list (list byte * bool)) :
  fits_u32 (12 * Z.of_nat (length l)) l = true →
  declared_size (archive_bytes l) (seq 0 (length l)) = total_sizes l.
Proof.
  intros Hfits. apply declared_size_rows. intros i x Hx.
  unfold row_size, archive_bytes.
  now rewrite (row_at_header _ _ _ _ _ Hfits Hx).
Qed.

(** The payload of entry [i] sits in the archive at the offset its row
    gives. *)
Lemma archive_slice (l : list (list byte * bool)) (i : nat) x :
  l !! i = Some x →
  take (Z.to_nat (blob_size x))
    (drop (Z.to_nat (12 * Z.of_nat (length l) + total_sizes (take i l)))
       (archive_bytes l))
  = fst x.
Proof.
  intros Hx. unfold archive_bytes.
  assert (payload_bytes l
          = payload_bytes (take i l) ++ fst x ++ payload_bytes (drop (S i) l))
    as ->.
  { rewrite <- (take_drop_middle _ _ _ Hx) at 1.
    rewrite payload_bytes_app. reflexivity. }
  pose proof (total_sizes_nonneg (take i l)).
  rewrite app_assoc, drop_app_length'.
  - unfold blob_size. rewrite Nat2Z.id. apply take_app_length.
  - rewrite length_app, header_bytes_length.
    rewrite <- payload_bytes_length. lia.
Qed.

(** [load] on the archive of [blobs]. *)
Lemma load_archive d name (blobs : list (list byte * bool)) :
  blobs ≠ [] →
  fits_u32 (12 * Z.of_nat (length blobs)) blobs = true →
  d !! name = Some (archive_bytes blobs) →
  ∃ p',
    load (fresh d name)
    = (World d
         (OBT.mk (bind_rows (archive_bytes blobs) (seq 0 (length blobs)) ∅)
            (Some (mkIO name p' true false)) name
            (Z.of_nat (length (archive_bytes blobs))) 0 OBT_Read), inr tt).
Proof.
  intros Hne Hfits Hd.
  pose proof (header_size_archive _ Hne Hfits) as Hhs.
  pose proof (row_count_archive _ Hne Hfits) as Hrc.
  pose proof (archive_bytes_length blobs) as Hlen.
  pose proof (total_sizes_nonneg blobs) as Hts.
  pose proof (declared_size_archive _ Hfits) as Hds.
  assert (4 <= Z.of_nat (length (archive_bytes blobs))) as H4.
  { destruct blobs; [congruence|]. cbn [length] in Hlen. lia. }
  destruct (load_ok d ∅ None name 0 0 (archive_bytes blobs) Hd H4) as [p' Hp'].
  - lia.
  - rewrite Hrc. now apply flags_ok_archive.
  - rewrite Hrc, Hds, Hhs. lia.
  - exists p'. unfold fresh, OBT.init. rewrite Hp', Hrc, Hds, Hhs.
    repeat f_equal. lia.
Qed.

Lemma export_entry_run d ents name p wr fname tot eo (i : Z) (e : OBTEntry.t) :
  ents !! i = Some e →
  0 <= OBTEntry.offset e → 0 <= OBTEntry.size e →
  export_entry i
    (World d (OBT.mk ents (Some (mkIO name p true wr)) fname tot eo OBT_Read))
  = let out := take (Z.to_nat (OBTEntry.size e))
                 (drop (Z.to_nat (OBTEntry.offset e)) (file_data d name)) in
    (World d (OBT.mk ents
                (Some (mkIO name (OBTEntry.offset e + Z.of_nat (length out))
                            true wr)) fname tot eo OBT_Read), inr out).
Proof.
  intros He Hoff Hsz. unfold export_entry. rewrite bind_get.
  cbn [this OBT.mode OBT.entries mode_eqb negb]. rewrite He.
  erewrite bind_inr by (apply fp_seek_run; lia).
  cbn [io_name io_readable io_writable].
  now rewrite fp_read_run by lia.
Qed.

(** ** The first bytes of a written file *)

Lemma take_write_at (p : nat) (bs data : list byte) :
  (4 <= p)%nat → (4 <= length data)%nat →
  take 4 (write_at p bs data) = take 4 data
  ∧ (4 <= length (write_at p bs data))%nat.
Proof.
  intros Hp Hlen. unfold write_at. split.
  - rewrite take_app_le by (rewrite length_take; lia).
    rewrite take_take. f_equal. lia.
  - rewrite length_app, length_take. lia.
Qed.

Lemma write_at_0 (bs data : list byte) :
  write_at 0 bs data = bs ++ drop (length bs) data.
Proof. reflexivity. Qed.

Lemma preserves_fp_write name v bs : preserves (header_kept name v) (fp_write bs).
Proof.
  intros w w' r (h & Hfp & Hn & Hpos & Htake & Hlen) Hrun.
  unfold fp_write in Hrun. rewrite bind_get, Hfp in Hrun.
  destruct (io_writable h).
  - injection Hrun as <- <-.
    destruct (take_write_at (Z.to_nat (io_pos h)) bs
                (file_data (disk w) name) ltac:(lia) Hlen) as [Ht Hl].
    eexists. split; [reflexivity|]. cbn [io_name io_pos disk set_disk set_fp].
    rewrite Hn, file_data_insert. repeat split; try assumption; try lia.
    now rewrite Ht.
  - injection Hrun as <- <-. exists h. repeat split; assumption.
Qed.

Lemma preserves_write_row name v i c :
  preserves (header_kept name v) (write_row i c).
Proof.
  unfold write_row.
  apply preserves_bind; [apply preserves_lookup_entry|]. intros e.
  apply preserves_bind; [apply preserves_lift|]. intros hdr.
  apply preserves_bind; [apply preserves_fp_write|]. intros _.
  apply preserves_ret.
Qed.

Lemma preserves_write_payload name v i u :
  preserves (header_kept name v) (write_payload i u).
Proof.
  unfold write_payload.
  apply preserves_bind; [apply preserves_lookup_entry|]. intros e.
  destruct (OBTEntry.raw_entry e);
    [apply preserves_fp_write|apply preserves_raise].
Qed.

Lemma bind_inr_inv {A B} (c : M A) (k : A → M B) w w' (y : B) :
  bind c k w = (w', inr y) →
  ∃ w1 x, c w = (w1, inr x) ∧ k x w1 = (w', inr y).
Proof.
  unfold bind. destruct (c w) as [w1 [e|x]]; intros H; [discriminate|].
  now exists w1, x.
Qed.

Lemma struct_pack_III_inv (a b c : Z) (bs : list byte) :
  struct_pack_III a b c = inr bs →
  0 <= a < U32_LIMIT
  ∧ bs = int_to_bytes 4 a ++ int_to_bytes 4 b ++ int_to_bytes 4 c.
Proof.
  unfold struct_pack_III, pack_I.
  destruct ((0 <=? a) && (a <? U32_LIMIT)) eqn:Ea; [|discriminate].
  destruct ((0 <=? b) && (b <? U32_LIMIT)); [|discriminate].
  destruct ((0 <=? c) && (c <? U32_LIMIT)); [|discriminate].
  intros [= <-]. apply andb_prop in Ea as [E1 E2]. split; [lia|reflexivity].
Qed.

(** The first header row, written at position 0, puts the header size in
    the first four bytes of the file. *)
Lemma write_row_first d ents nm rd wr fname tot eo md (i off : Z) w1 (c : Z) :
  write_row i off
    (World d (OBT.mk ents (Some (mkIO nm 0 rd wr)) fname tot eo md))
  = (w1, inr c) →
  0 <= off < U32_LIMIT ∧ header_kept nm (int_to_bytes 4 off) w1
  ∧ OBT.fp (this w1) = Some (mkIO nm 12 rd wr).
Proof.
  intros Hrun. unfold write_row in Hrun.
  apply bind_inr_inv in Hrun as (wa & e & Hl & Hrun).
  unfold lookup_entry in Hl. rewrite bind_get in Hl.
  destruct (_ !! i); [|discriminate]. injection Hl as <- <-.
  apply bind_inr_inv in Hrun as (wb & hdr & Hp & Hrun).
  injection Hp as <- Hp.
  apply struct_pack_III_inv in Hp as [Hoff ->].
  apply bind_inr_inv in Hrun as (wc & [] & Hw & Hrun).
  injection Hrun as <- _.
  unfold fp_write in Hw. rewrite bind_get in Hw.
  cbn [this OBT.fp io_writable] in Hw.
  destruct wr; [|discriminate]. injection Hw as <-.
  split; [exact Hoff|]. split.
  - eexists. split; [reflexivity|].
    cbn [io_name io_pos disk set_disk set_fp].
    rewrite file_data_insert. change (Z.to_nat 0) with 0%nat.
    rewrite write_at_0.
    repeat split; try lia; try reflexivity.
    all: try (rewrite length_app; cbn [length]; lia).
    all: cbn; lia.
  - reflexivity.
Qed.

(** Whatever the world it starts from, a [finalize_write] that returns has
    left [12 * N] in the first four bytes of the file it wrote, [N] the
    number of entries, which is not zero. *)
Lemma finalize_write_header (w w' : world) :
  finalize_write w = (w', inr tt) →
  (0 < size (OBT.entries (this w)))%nat
  ∧ ∃ h, OBT.fp (this w') = Some h
         ∧ header_size (file_data (disk w') (io_name h))
           = 12 * Z.of_nat (size (OBT.entries (this w))).
Proof.
  destruct w as [d [ents fp0 fname tot eo md]]. intros Hrun.
  unfold finalize_write in Hrun. rewrite bind_get in Hrun.
  cbn [this OBT.mode OBT.entries] in Hrun |- *.
  destruct (negb (mode_eqb md OBT_Write)); [discriminate|].
  destruct (Z.of_nat (size ents) =? 0) eqn:En; [discriminate|].
  apply Z.eqb_neq in En. split; [lia|].
  apply bind_inr_inv in Hrun as (w0 & [] & Hseek & Hrun).
  destruct fp0 as [[nm p0 rd wr]|]; [|discriminate].
  rewrite fp_seek_run in Hseek by lia. injection Hseek as <-.
  cbn [io_name io_readable io_writable] in Hrun.
  unfold range in Hrun. rewrite Nat2Z.id in Hrun.
  destruct (size ents) as [|n] eqn:Esz; [lia|].
  cbn [seq fmap list_fmap for_in] in Hrun.
  apply bind_inr_inv in Hrun as (w2 & c2 & Hrows & Hpay).
  apply bind_inr_inv in Hrows as (w1 & c1 & Hfirst & Hrows).
  apply write_row_first in Hfirst as (Hoff & Hkept & Hfp1).
  assert (header_kept nm (int_to_bytes 4 (Z.of_nat (S n) * 12)) w2) as Hk2.
  { refine (preserves_for_in _ _ write_row c1 _ w1 w2 _ Hkept Hrows).
    intros; apply preserves_write_row. }
  assert (header_kept nm (int_to_bytes 4 (Z.of_nat (S n) * 12)) w') as Hend.
  { refine (preserves_bind _ _ _ _ _ w2 w' _ Hk2 Hpay).
    - apply preserves_write_payload.
    - intros u. apply preserves_for_in. intros; apply preserves_write_payload. }
  destruct Hend as (h & Hfp & Hname & _ & Htake & _).
  exists h. split; [exact Hfp|].
  unfold header_size. rewrite Hname, Htake.
  rewrite int_from_to_bytes_4 by exact Hoff. lia.
Qed.

(** ** Outcomes of [load] before the loop *)

Lemma load_too_short (w : world) (data : list byte) :
  OBT.mode (this w) = OBT_None →
  disk w !! OBT.filename (this w) = Some data →
  Z.of_nat (length data) < 4 →
  load w = (w, inl (InvalidOBTFileError "Could not read header size")).
Proof.
  intros Hm Hd Hlen. unfold load. rewrite bind_get, Hm.
  cbn [mode_eqb negb]. unfold isfile, getsize.
  rewrite (file_data_lookup _ _ _ Hd), Hd. cbn [negb].
  destruct (Z.of_nat (length data) <? 4) eqn:E; [reflexivity|lia].
Qed.

Lemma load_header_cut d ents fp0 name tot eo (data : list byte) :
  d !! name = Some data →
  4 <= Z.of_nat (length data) →
  Z.of_nat (length data) < header_size data →
  load (World d (OBT.mk ents fp0 name tot eo OBT_None))
  = (World d (OBT.mk ents (Some (mkIO name 4 true false)) name tot eo OBT_None),
     inl (InvalidOBTFileError "Could not read header")).
Proof.
  intros Hd H4 Hh.
  unfold load. rewrite bind_get.
  cbn [this disk OBT.mode OBT.filename mode_eqb negb].
  unfold isfile, getsize. rewrite (file_data_lookup _ _ _ Hd), Hd. cbn [negb].
  destruct (Z.of_nat (length data) <? 4) eqn:E4; [lia|].
  erewrite bind_inr by (eapply open_rb_run; eassumption).
  erewrite bind_inr by (apply fp_seek_run; lia).
  erewrite bind_inr by (apply fp_read_run; lia).
  cbn [io_name io_readable io_writable].
  rewrite (file_data_lookup _ _ _ Hd).
  change (Z.to_nat 0) with 0%nat. change (Z.to_nat 4) with 4%nat.
  rewrite drop_0. fold (header_size data).
  destruct (Z.of_nat (length data) <? header_size data) eqn:Eh; [|lia].
  rewrite length_take. replace (4 `min` length data)%nat with 4%nat by lia.
  reflexivity.
Qed.

Lemma load_no_file d ents fp0 name tot eo :
  d !! name = None →
  load (World d (OBT.mk ents fp0 name tot eo OBT_None))
  = (World d (OBT.mk ents fp0 name tot eo OBT_None),
     inl (FileNotFoundError name)).
Proof.
  intros Hd. unfold load. rewrite bind_get.
  cbn [this disk OBT.mode OBT.filename mode_eqb negb].
  unfold isfile. now rewrite Hd.
Qed.

(** The operations that need an opened archive refuse one that is not. *)
Lemma export_entry_wrong_mode (w : world) (i : Z) :
  OBT.mode (this w) ≠ OBT_Read →
  export_entry i w = (w, inl (OBTError "File is not opened")).
Proof.
  intros Hm. unfold export_entry. rewrite bind_get.
  destruct (OBT.mode (this w)); [reflexivity|congruence|reflexivity].
Qed.

Lemma add_entry_wrong_mode (w : world) b f :
  OBT.mode (this w) ≠ OBT_Write →
  add_entry b f w = (w, inl (OBTError "OBT has not been opened for writing")).
Proof.
  intros Hm. unfold add_entry. rewrite bind_get.
  destruct (OBT.mode (this w)); [reflexivity|reflexivity|congruence].
Qed.

Lemma finalize_write_wrong_mode (w : world) :
  OBT.mode (this w) ≠ OBT_Write →
  finalize_write w = (w, inl (OBTError "OBT has not been opened for writing")).
Proof.
  intros Hm. unfold finalize_write. rewrite bind_get.
  destruct (OBT.mode (this w)); [reflexivity|reflexivity|congruence].
Qed.

Lemma finalize_write_empty (w : world) :
  OBT.mode (this w) = OBT_Write →
  OBT.entries (this w) = ∅ →
  finalize_write w = (w, inl (OBTError "No entries to write")).
Proof.
  intros Hm He. unfold finalize_write. rewrite bind_get, Hm, He.
  reflexivity.
Qed.

(** What a [load] on a new archive object leaves behind, whatever the
    outcome: the disk is untouched and the table holds the first [k] rows of
    the header, [k] at most the number of rows. *)
Lemma seq_prefix (n : nat) (l1 l2 : list nat) :
  seq 0 n = l1 ++ l2 → l1 = seq 0 (length l1) ∧ (length l1 <= n)%nat.
Proof.
  intros H.
  assert (length l1 <= n)%nat as Hle.
  { apply (f_equal length) in H. rewrite length_seq, length_app in H. lia. }
  split; [|exact Hle].
  apply (f_equal (take (length l1))) in H.
  rewrite take_app_length, take_seq in H.
  now replace (length l1 `min` n)%nat with (length l1) in H by lia.
Qed.

Lemma load_fresh_outcome d name (w' : world) (r : exn + unit) :
  load (fresh d name) = (w', r) →
  disk w' = d
  ∧ ∃ k, (k <= row_count (file_data d name))%nat
         ∧ OBT.entries (this w') = bind_rows (file_data d name) (seq 0 k) ∅
         ∧ (r = inr tt →
            k = row_count (file_data d name)
            ∧ (∃ p, OBT.fp (this w') = Some (mkIO name p true false))
            ∧ Forall (fun i => flag_ok (row_flag (file_data d name) i) = true)
                     (seq 0 k)).
Proof.
  unfold fresh, OBT.init. intros Hrun.
  destruct (d !! name) as [data|] eqn:Hd.
  2:{ rewrite load_no_file in Hrun by assumption. injection Hrun as <- <-.
      split; [reflexivity|]. exists 0%nat. repeat split; try lia; try reflexivity; discriminate. }
  rewrite (file_data_lookup _ _ _ Hd).
  destruct (decide (Z.of_nat (length data) < 4)) as [H4|H4].
  { rewrite (load_too_short _ data) in Hrun
      by first [reflexivity | exact Hd | exact H4].
    injection Hrun as <- <-.
    split; [reflexivity|]. exists 0%nat. repeat split; try lia; try reflexivity; discriminate. }
  destruct (decide (Z.of_nat (length data) < header_size data)) as [Hh|Hh].
  { rewrite (load_header_cut _ _ _ _ _ _ data) in Hrun by (assumption || lia).
    injection Hrun as <- <-.
    split; [reflexivity|]. exists 0%nat. repeat split; try lia; try reflexivity; discriminate. }
  destruct (decide (Forall (fun i => flag_ok (row_flag data i) = true)
                      (seq 0 (row_count data)))) as [Hflags|Hflags].
  - destruct (decide (0 + header_size data
                        + declared_size data (seq 0 (row_count data))
                      <= Z.of_nat (length data))) as [Hsz|Hsz].
    + destruct (load_ok d ∅ None name 0 0 data Hd ltac:(lia) ltac:(lia)
                  Hflags Hsz) as [p' Hp'].
      rewrite Hp' in Hrun. injection Hrun as <- <-.
      split; [reflexivity|]. exists (row_count data).
      repeat split; try lia; try reflexivity; [now exists p'|exact Hflags].
    + destruct (load_not_enough d ∅ None name 0 0 data Hd ltac:(lia) ltac:(lia)
                  Hflags ltac:(lia)) as [p' Hp'].
      rewrite Hp' in Hrun. injection Hrun as <- <-.
      split; [reflexivity|]. exists (row_count data).
      repeat split; try lia; try reflexivity; discriminate.
  - apply not_Forall_Exists in Hflags; [|intros i; apply _].
    assert (Exists (fun i => flag_ok (row_flag data i) = false)
              (seq 0 (row_count data))) as Hex.
    { eapply Exists_impl; [exact Hflags|].
      intros i Hi. cbn in Hi. now destruct (flag_ok _). }
    destruct (load_bad_flag d ∅ None name 0 0 data Hd ltac:(lia) ltac:(lia) Hex)
      as (l1 & j & l2 & p' & Hsplit & _ & _ & Hp').
    rewrite Hp' in Hrun. injection Hrun as <- <-.
    destruct (seq_prefix _ _ _ Hsplit) as [Hl1 Hle].
    split; [reflexivity|]. exists (length l1).
    cbn [this OBT.entries]. rewrite <- Hl1.
    repeat split; try lia; try reflexivity; discriminate.
Qed.

(** * The claims *)

(** ** C1: round trip *)

Lemma fits_u32_big_blob (big : list byte) :
  Z.of_nat (length big) = U32_LIMIT - 24 →
  fits_u32 (12 * Z.of_nat 2) [(big, false); ([], false)] = false.
Proof.
  intros H. cbn [fits_u32]. unfold blob_size. cbn [fst]. rewrite H.
  reflexivity.
Qed.

(** C1, as stated, fails: with a first payload of [2^32 - 24] bytes the
    second entry's offset is [2^32], [struct.pack] raises [struct.error] in
    [finalize_write], and no archive is produced to read back. *)
Lemma roundtrip_overflow :
  ∃ w', write_archive false [(big_blob, false); ([], false)]
          (fresh ∅ "big.obt")
        = (w', inl StructError).
Proof.
  apply write_archive_overflow.
  - discriminate.
  - left. apply lookup_empty.
  - change (length [(big_blob, false); ([], false)]) with 2%nat.
    apply fits_u32_big_blob.
    unfold big_blob. rewrite length_replicate.
    apply Z2Nat.id. unfold U32_LIMIT. lia.
Qed.

(** C1 (amended): for every non-empty list of payloads with flags whose
    offsets and sizes fit unsigned 32-bit fields, writing them in order to
    a newly opened archive, finalizing, loading the file with a new archive
    object and exporting entry [i] gives back payload [i], and the record
    parsed for entry [i] carries its flag (as 0 or 1). *)
Theorem roundtrip (d : FS) (name : string) (overwrite : bool)
    (blobs : list (list byte * bool)) :
  blobs ≠ [] →
  d !! name = None ∨ overwrite = true →
  fits_u32 (12 * Z.of_nat (length blobs)) blobs = true →
  ∃ w1 w2,
    write_archive overwrite blobs (fresh d name) = (w1, inr tt)
    ∧ load (fresh (disk w1) name) = (w2, inr tt)
    ∧ ∀ i b f, blobs !! i = Some (b, f) →
        (∃ w3, export_entry (Z.of_nat i) w2 = (w3, inr b))
        ∧ ∃ e, OBT.entries (this w2) !! Z.of_nat i = Some e
               ∧ OBTEntry.is_compressed e = Z.b2z f.
Proof.
  intros Hne Hfree Hfits.
  eexists. destruct (load_archive (<[name := archive_bytes blobs]> d) name
                       blobs Hne Hfits (lookup_insert_eq _ _ _)) as [p' Hload].
  eexists. split; [apply write_archive_ok; assumption|].
  split; [exact Hload|].
  intros i b f Hi.
  pose proof (lookup_lt_Some _ _ _ Hi) as Hlt.
  assert (bind_rows (archive_bytes blobs) (seq 0 (length blobs)) ∅
            !! Z.of_nat i
          = Some (OBTEntry.mk
                    (12 * Z.of_nat (length blobs) + total_sizes (take i blobs))
                    (blob_size (b, f)) (Z.b2z f) true None)) as Hent.
  { rewrite bind_rows_lookup by (apply elem_of_seq; lia).
    now rewrite (row_entry_archive _ _ _ Hfits Hi). }
  split.
  - eexists. rewrite (export_entry_run _ _ _ _ _ _ _ _ _ _ Hent).
    + cbn [OBTEntry.offset OBTEntry.size].
      rewrite file_data_insert, (archive_slice _ _ _ Hi). reflexivity.
    + cbn [OBTEntry.offset]. pose proof (total_sizes_nonneg (take i blobs)). lia.
    + cbn [OBTEntry.size]. apply blob_size_nonneg.
  - eexists. split; [exact Hent|reflexivity].
Qed.

Lemma roundtrip_witness :
  ab_cde ≠ []
  ∧ ((∅ : FS) !! "out.obt" = None ∨ false = true)
  ∧ fits_u32 (12 * Z.of_nat (length ab_cde)) ab_cde = true
  ∧ ∃ w1 w2,
      write_archive false ab_cde (fresh ∅ "out.obt") = (w1, inr tt)
      ∧ load (fresh (disk w1) "out.obt") = (w2, inr tt)
      ∧ ∀ i b f, ab_cde !! i = Some (b, f) →
          (∃ w3, export_entry (Z.of_nat i) w2 = (w3, inr b))
          ∧ ∃ e, OBT.entries (this w2) !! Z.of_nat i = Some e
                 ∧ OBTEntry.is_compressed e = Z.b2z f.
Proof.
  assert (H1 : ab_cde ≠ []) by discriminate.
  assert (H2 : (∅ : FS) !! "out.obt" = None ∨ false = true)
    by (left; reflexivity).
  assert (H3 : fits_u32 (12 * Z.of_nat (length ab_cde)) ab_cde = true)
    by reflexivity.
  exact (conj H1 (conj H2 (conj H3 (roundtrip ∅ "out.obt" false ab_cde H1 H2 H3)))).
Defined.

(** ** C2: binding a record that is already loaded *)

(** C2: on a record that is already loaded, here bound to [(24, 2, 0)],
    [OBTEntry.load] raises nothing and replaces offset, size and flag,
    whereas [OBTEntry.frombytes] on the same record raises
    "Cannot overwrite a loaded entry". *)
Theorem entry_load_overwrites_loaded :
  let e := OBTEntry.mk 24 2 0 true None in
  OBTEntry.load e 26 3 1 = inr (OBTEntry.mk 26 3 1 true None)
  ∧ OBTEntry.frombytes e ["A"%byte]
    = inl (OBTError "Cannot overwrite a loaded entry").
Proof. split; reflexivity. Qed.

(** ** C3: exporting an entry *)

Lemma bind_rows_lookup_inv (data : list byte) (l : list nat) (z : Z) e :
  bind_rows data l ∅ !! z = Some e →
  ∃ i, z = Z.of_nat i ∧ i ∈ l ∧ e = row_entry data i.
Proof.
  intros H.
  destruct (decide (0 <= z ∧ Z.to_nat z ∈ l)) as [[Hz Hin]|Hno].
  - exists (Z.to_nat z). rewrite <- (Z2Nat.id z Hz) in H at 1.
    rewrite bind_rows_lookup in H by assumption.
    injection H as <-. repeat split; [lia|assumption].
  - rewrite bind_rows_lookup_other in H; [now rewrite lookup_empty in H|].
    intros i Hi <-. apply Hno. split; [lia|]. now rewrite Nat2Z.id.
Qed.

(** C3, as stated, fails: after a successful [load] of [bad_offset_file]
    entry 1 has size 1 and offset 1000, past the end of the 26-byte file,
    and [export_entry(1)] returns no byte at all instead of 1 byte; what it
    returns is the bytes alone, without the flag. *)
Lemma export_entry_reads_less :
  ∃ w w',
    load (fresh {[ "x.obt" := bad_offset_file ]} "x.obt") = (w, inr tt)
    ∧ OBT.entries (this w) !! 1 = Some (OBTEntry.mk 1000 1 0 true None)
    ∧ export_entry 1 w = (w', inr []).
Proof.
  do 2 eexists. split; [vm_compute; reflexivity|].
  split; vm_compute; reflexivity.
Qed.

(** C3 (amended): after a successful [load], [export_entry(i)] for a bound
    index returns the bytes of the file from the record's offset on, at
    most as many as its size and exactly that many when offset plus size
    lie within the file; the flag stays in the record, where it is 0 or 1.
    It raises for an index that is not bound and for an archive that is not
    in read mode. *)
Theorem export_entry_spec (d : FS) (name : string) (w : world) :
  load (fresh d name) = (w, inr tt) →
  (∀ i e, OBT.entries (this w) !! i = Some e →
     let out := take (Z.to_nat (OBTEntry.size e))
                  (drop (Z.to_nat (OBTEntry.offset e)) (file_data d name)) in
     (∃ w', export_entry i w = (w', inr out))
     ∧ (OBTEntry.offset e + OBTEntry.size e
          <= Z.of_nat (length (file_data d name)) →
        Z.of_nat (length out) = OBTEntry.size e)
     ∧ flag_ok (OBTEntry.is_compressed e) = true)
  ∧ (∀ i, OBT.entries (this w) !! i = None →
       export_entry i w = (w, inl TypeError))
  ∧ (∀ w0 i, OBT.mode (this w0) ≠ OBT_Read →
       export_entry i w0 = (w0, inl (OBTError "File is not opened"))).
Proof.
  intros Hrun.
  pose proof (load_mode (fresh d name) w (inr tt) eq_refl Hrun) as Hmode.
  destruct (load_fresh_outcome d name w (inr tt) Hrun)
    as (Hdisk & k & Hk & Hents & Hok).
  destruct (Hok eq_refl) as (-> & [p Hfp] & Hflags).
  destruct w as [d' [ents fp0 fname tot eo md]].
  cbn in Hmode, Hdisk, Hents, Hfp. unfold mode_is in Hmode. cbn in Hmode.
  subst d' ents fp0 md.
  split; [|split].
  - intros i e He. cbn [this OBT.entries] in He.
    apply bind_rows_lookup_inv in He as (j & -> & Hj & ->).
    assert (0 <= OBTEntry.offset (row_entry (file_data d name) j)) as Hoff
      by apply int_from_bytes_nonneg.
    assert (0 <= OBTEntry.size (row_entry (file_data d name) j)) as Hsz
      by apply int_from_bytes_nonneg.
    cbv zeta. repeat split.
    + eexists. apply export_entry_run; [|assumption|assumption].
      now apply bind_rows_lookup.
    + intros Hin. rewrite length_take, length_drop. lia.
    + eapply Forall_forall in Hflags; [exact Hflags|exact Hj].
  - intros i Hi. unfold export_entry. rewrite bind_get.
    cbn [this OBT.mode OBT.entries mode_eqb negb] in Hi |- *.
    now rewrite Hi.
  - intros w0 i. apply export_entry_wrong_mode.
Qed.

Lemma export_entry_spec_witness :
  let d : FS := {[ "out.obt" := ab_cde_file ]} in
  let w := fst (load (fresh d "out.obt")) in
  load (fresh d "out.obt") = (w, inr tt)
  ∧ (∀ i e, OBT.entries (this w) !! i = Some e →
       let out := take (Z.to_nat (OBTEntry.size e))
                    (drop (Z.to_nat (OBTEntry.offset e))
                       (file_data d "out.obt")) in
       (∃ w', export_entry i w = (w', inr out))
       ∧ (OBTEntry.offset e + OBTEntry.size e
            <= Z.of_nat (length (file_data d "out.obt")) →
          Z.of_nat (length out) = OBTEntry.size e)
       ∧ flag_ok (OBTEntry.is_compressed e) = true).
Proof.
  intros d w.
  assert (H : load (fresh d "out.obt") = (w, inr tt))
    by (vm_compute; reflexivity).
  exact (conj H (proj1 (export_entry_spec d "out.obt" w H))).
Defined.

(** ** C4: unknown compression flag *)

(** C4: on the one-row file [(12, 0, 2)] [load] raises
    [OBTError("Unknown compression method")]: the base class, not
    [InvalidOBTFileError], and the mode stays unopened. *)
Theorem load_bad_flag_error_kind :
  ∃ w', load (fresh {[ "bad.obt" := bad_flag_file ]} "bad.obt")
        = (w', inl (OBTError "Unknown compression method"))
        ∧ is_InvalidOBTFileError (OBTError "Unknown compression method") = false
        ∧ exn_str (OBTError "Unknown compression method")
          = "OBT Error: Unknown compression method"
        ∧ OBT.mode (this w') = OBT_None.
Proof.
  eexists. split; [vm_compute; reflexivity|]. repeat split.
Qed.

(** ** C5: short files *)

(** C5: on an unopened archive whose file exists, [load] raises
    [InvalidOBTFileError("Could not read header size")] when the file has
    fewer than 4 bytes, and [InvalidOBTFileError("Could not read header")]
    when its first 4 bytes, read little-endian, exceed its length. *)
Theorem load_short_file (w : world) (data : list byte) :
  OBT.mode (this w) = OBT_None →
  disk w !! OBT.filename (this w) = Some data →
  ((length data < 4)%nat →
   load w = (w, inl (InvalidOBTFileError "Could not read header size")))
  ∧ ((4 <= length data)%nat →
     Z.of_nat (length data) < header_size data →
     ∃ w', load w = (w', inl (InvalidOBTFileError "Could not read header"))
           ∧ OBT.mode (this w') = OBT_None).
Proof.
  intros Hm Hd. split.
  - intros Hlen. apply (load_too_short w data Hm Hd). lia.
  - intros H4 Hh. destruct w as [d [ents fp0 name tot eo md]].
    cbn in Hm, Hd. subst md.
    eexists. split; [apply (load_header_cut _ _ _ _ _ _ data); (assumption || lia)|].
    reflexivity.
Qed.

Lemma load_short_file_witness :
  (load (fresh {[ "s.obt" := ["A"; "B"; "C"]%byte ]} "s.obt")
   = (fresh {[ "s.obt" := ["A"; "B"; "C"]%byte ]} "s.obt",
      inl (InvalidOBTFileError "Could not read header size")))
  ∧ ∃ w', load (fresh {[ "h.obt" := [x0c; x00; x00; x00; "A"]%byte ]} "h.obt")
          = (w', inl (InvalidOBTFileError "Could not read header"))
          ∧ OBT.mode (this w') = OBT_None.
Proof.
  split.
  - refine (proj1 (load_short_file
                     (fresh {[ "s.obt" := ["A"; "B"; "C"]%byte ]} "s.obt")
                     ["A"; "B"; "C"]%byte _ _) _).
    + reflexivity.
    + vm_compute. reflexivity.
    + cbn. lia.
  - refine (proj2 (load_short_file
                     (fresh {[ "h.obt" := [x0c; x00; x00; x00; "A"]%byte ]} "h.obt")
                     [x0c; x00; x00; x00; "A"]%byte _ _) _ _).
    + reflexivity.
    + vm_compute. reflexivity.
    + cbn. lia.
    + vm_compute. reflexivity.
Defined.

(** ** C6: declared sizes against the actual size *)

(** C6: when the header is readable and every row has a known flag but the
    header size plus the declared sizes exceed the file length, [load] on a
    new archive object raises [InvalidOBTFileError("Not enough data in
    file")], and by then every row has been bound. *)
Theorem load_not_enough_data (d : FS) (name : string) (data : list byte) :
  d !! name = Some data →
  (4 <= length data)%nat →
  header_size data <= Z.of_nat (length data) →
  Forall (fun i => flag_ok (row_flag data i) = true) (seq 0 (row_count data)) →
  Z.of_nat (length data)
    < header_size data + declared_size data (seq 0 (row_count data)) →
  ∃ w', load (fresh d name)
        = (w', inl (InvalidOBTFileError "Not enough data in file"))
        ∧ OBT.mode (this w') = OBT_None
        ∧ ∀ i, (i < row_count data)%nat →
               OBT.entries (this w') !! Z.of_nat i = Some (row_entry data i).
Proof.
  intros Hd H4 Hh Hflags Hsz.
  destruct (load_not_enough d ∅ None name 0 0 data Hd ltac:(lia) Hh Hflags
              ltac:(lia)) as [p' Hp'].
  eexists. split; [exact Hp'|]. split; [reflexivity|].
  intros i Hi. cbn [this OBT.entries].
  apply bind_rows_lookup, elem_of_seq. lia.
Qed.

Lemma load_not_enough_data_witness :
  ∃ w', load (fresh {[ "t.obt" := truncated_file ]} "t.obt")
        = (w', inl (InvalidOBTFileError "Not enough data in file"))
        ∧ OBT.mode (this w') = OBT_None
        ∧ ∀ i, (i < row_count truncated_file)%nat →
               OBT.entries (this w') !! Z.of_nat i
               = Some (row_entry truncated_file i).
Proof.
  apply (load_not_enough_data {[ "t.obt" := truncated_file ]} "t.obt"
           truncated_file).
  - vm_compute. reflexivity.
  - cbn. lia.
  - vm_compute. discriminate.
  - vm_compute. repeat constructor.
  - vm_compute. reflexivity.
Defined.

(** ** C7: the header describes itself *)

Lemma row_offset_0 (data : list byte) : row_offset data 0 = header_size data.
Proof.
  unfold row_offset, row_at, row_bytes, header_size. cbn [fst Nat.mul].
  rewrite drop_0, take_take. reflexivity.
Qed.

(** C7: whenever [finalize_write] returns, the first 4 bytes of the file it
    wrote, read as a little-endian unsigned integer, are [N * 12] for the
    [N] entries of the archive; they are the offset field of entry 0. *)
Theorem finalize_write_header_size (w w' : world) :
  finalize_write w = (w', inr tt) →
  ∃ h, OBT.fp (this w') = Some h
       ∧ int_from_bytes (take 4 (file_data (disk w') (io_name h)))
         = Z.of_nat (size (OBT.entries (this w))) * 12
       ∧ row_offset (file_data (disk w') (io_name h)) 0
         = Z.of_nat (size (OBT.entries (this w))) * 12.
Proof.
  intros Hrun.
  destruct (finalize_write_header w w' Hrun) as (_ & h & Hfp & Hhs).
  exists h. rewrite row_offset_0. unfold header_size in *.
  repeat split; [exact Hfp|lia|lia].
Qed.

Lemma finalize_write_header_size_witness :
  finalize_write ab_cde_writer = (fst (finalize_write ab_cde_writer), inr tt)
  ∧ ∃ h, OBT.fp (this (fst (finalize_write ab_cde_writer))) = Some h
         ∧ int_from_bytes
             (take 4 (file_data (disk (fst (finalize_write ab_cde_writer)))
                        (io_name h)))
           = Z.of_nat (size (OBT.entries (this ab_cde_writer))) * 12
         ∧ row_offset
             (file_data (disk (fst (finalize_write ab_cde_writer))) (io_name h))
             0
           = Z.of_nat (size (OBT.entries (this ab_cde_writer))) * 12.
Proof.
  assert (H : finalize_write ab_cde_writer
              = (fst (finalize_write ab_cde_writer), inr tt))
    by (vm_compute; reflexivity).
  exact (conj H (finalize_write_header_size _ _ H)).
Defined.

(** ** C8: the two-entry scenario *)

(** C8: writing [b"AB"] (not compressed) then [b"CDE"] (compressed) to a
    newly opened archive produces the 29-byte file [ab_cde_file]: its first
    24 bytes are the packed rows [(24, 2, 0)] and [(26, 3, 1)], bytes 24-25
    are ["AB"] and bytes 26-28 are ["CDE"]. *)
Theorem write_ab_cde (d : FS) (name : string) (overwrite : bool) :
  d !! name = None ∨ overwrite = true →
  ∃ w',
    write_archive overwrite ab_cde (fresh d name) = (w', inr tt)
    ∧ disk w' !! name = Some ab_cde_file
    ∧ length ab_cde_file = 29%nat
    ∧ struct_pack_III 24 2 0 = inr (take 12 ab_cde_file)
    ∧ struct_pack_III 26 3 1 = inr (take 12 (drop 12 ab_cde_file))
    ∧ struct_unpack_III (take 12 ab_cde_file) = inr (24, 2, 0)
    ∧ struct_unpack_III (take 12 (drop 12 ab_cde_file)) = inr (26, 3, 1)
    ∧ take 2 (drop 24 ab_cde_file) = ["A"; "B"]%byte
    ∧ take 3 (drop 26 ab_cde_file) = ["C"; "D"; "E"]%byte.
Proof.
  intros Hfree. eexists.
  split; [apply write_archive_ok; [discriminate|exact Hfree|reflexivity]|].
  split; [apply lookup_insert_eq|].
  repeat split.
Qed.

Lemma write_ab_cde_witness :
  ((∅ : FS) !! "out.obt" = None ∨ false = true)
  ∧ ∃ w',
      write_archive false ab_cde (fresh ∅ "out.obt") = (w', inr tt)
      ∧ disk w' !! "out.obt" = Some ab_cde_file
      ∧ length ab_cde_file = 29%nat
      ∧ struct_pack_III 24 2 0 = inr (take 12 ab_cde_file)
      ∧ struct_pack_III 26 3 1 = inr (take 12 (drop 12 ab_cde_file))
      ∧ struct_unpack_III (take 12 ab_cde_file) = inr (24, 2, 0)
      ∧ struct_unpack_III (take 12 (drop 12 ab_cde_file)) = inr (26, 3, 1)
      ∧ take 2 (drop 24 ab_cde_file) = ["A"; "B"]%byte
      ∧ take 3 (drop 26 ab_cde_file) = ["C"; "D"; "E"]%byte.
Proof.
  assert (H : (∅ : FS) !! "out.obt" = None ∨ false = true)
    by (left; reflexivity).
  exact (conj H (write_ab_cde ∅ "out.obt" false H)).
Defined.

(** ** C9: the archive after a failed load *)




(** ** C10: a header size below 12 *)

(** C10: a file of at least 4 bytes whose first 4 bytes decode to a value
    below 12 that does not exceed the file length loads: the archive is in
    read mode with no entry.  The writer never produces such a file: a
    [finalize_write] that returns leaves at least 12 in the first 4 bytes,
    and with no entry it raises "No entries to write". *)
Theorem load_header_below_12 (d : FS) (name : string) (data : list byte) :
  d !! name = Some data →
  (4 <= length data)%nat →
  header_size data < 12 →
  header_size data <= Z.of_nat (length data) →
  (∃ w', load (fresh d name) = (w', inr tt)
         ∧ OBT.mode (this w') = OBT_Read
         ∧ OBT.entries (this w') = ∅)
  ∧ (∀ w w', finalize_write w = (w', inr tt) →
       ∃ h, OBT.fp (this w') = Some h
            ∧ 12 <= header_size (file_data (disk w') (io_name h)))
  ∧ (∀ w, OBT.mode (this w) = OBT_Write → OBT.entries (this w) = ∅ →
       finalize_write w = (w, inl (OBTError "No entries to write"))).
Proof.
  intros Hd H4 H12 Hh. repeat split.
  - assert (row_count data = 0%nat) as Hrc.
    { unfold row_count. pose proof (int_from_bytes_nonneg (take 4 data)).
      unfold header_size in *. rewrite Z.div_small by lia. reflexivity. }
    destruct (load_ok d ∅ None name 0 0 data Hd ltac:(lia) Hh) as [p' Hp'].
    + rewrite Hrc. constructor.
    + rewrite Hrc. cbn. lia.
    + eexists. split; [exact Hp'|]. rewrite Hrc. split; reflexivity.
  - intros w w' Hrun.
    destruct (finalize_write_header w w' Hrun) as (Hpos & h & Hfp & Hhs).
    exists h. split; [exact Hfp|lia].
  - intros w. apply finalize_write_empty.
Qed.

Lemma load_header_below_12_witness :
  ∃ w', load (fresh {[ "z.obt" := tiny_header_file ]} "z.obt") = (w', inr tt)
        ∧ OBT.mode (this w') = OBT_Read
        ∧ OBT.entries (this w') = ∅.
Proof.
  refine (proj1 (load_header_below_12 {[ "z.obt" := tiny_header_file ]} "z.obt"
                   tiny_header_file _ _ _ _)).
  - vm_compute. reflexivity.
  - cbn. lia.
  - vm_compute. reflexivity.
  - vm_compute. discriminate.
Defined.

(** * Further properties of the archive code *)

(** ** Entry records *)

(** X1: a record bound by [load] never accepts a payload afterwards:
    [frombytes] on it raises "Cannot overwrite a loaded entry", whatever the
    record was before and whatever it was bound to. *)
Theorem entry_bound_rejects_payload (e e' : OBTEntry.t) (o s c : Z)
    (bs : list byte) :
  OBTEntry.load e o s c = inr e' →
  OBTEntry.frombytes e' bs = inl (OBTError "Cannot overwrite a loaded entry").
Proof. intros [= <-]. reflexivity. Qed.

Lemma entry_bound_rejects_payload_witness :
  OBTEntry.load OBTEntry.init 24 2 0 = inr (OBTEntry.mk 24 2 0 true None)
  ∧ OBTEntry.frombytes (OBTEntry.mk 24 2 0 true None) ["A"%byte]
    = inl (OBTError "Cannot overwrite a loaded entry").
Proof.
  assert (H : OBTEntry.load OBTEntry.init 24 2 0
              = inr (OBTEntry.mk 24 2 0 true None)) by reflexivity.
  exact (conj H (entry_bound_rejects_payload _ _ 24 2 0 ["A"%byte] H)).
Defined.

(** ** What the reader leaves alone *)

Lemma preserves_open_rb I :
  (∀ w h, I w → I (set_fp h w)) → preserves I open_rb.
Proof.
  intros Hfp. unfold open_rb.
  apply preserves_bind; [apply preserves_get|]. intros w.
  apply preserves_if; [|apply preserves_raise].
  apply preserves_modify. intros; now apply Hfp.
Qed.

Lemma preserves_load I :
  stable_read I → (∀ w m, I w → I (set_mode m w)) → preserves I load.
Proof.
  intros HI Hmode. pose proof HI as (Hfp & Hents & Htot). unfold load.
  apply preserves_bind; [apply preserves_get|]. intros w.
  apply preserves_if; [apply preserves_raise|].
  apply preserves_if; [apply preserves_raise|].
  apply preserves_if; [apply preserves_raise|].
  apply preserves_bind; [now apply preserves_open_rb|]. intros _.
  apply preserves_bind; [now apply preserves_fp_seek|]. intros _.
  apply preserves_bind; [now apply preserves_fp_read|]. intros head.
  apply preserves_if; [apply preserves_raise|].
  apply preserves_bind; [apply preserves_modify; intros; now apply Htot|].
  intros _.
  apply preserves_bind.
  { apply preserves_for_in. intros; now apply preserves_load_row. }
  intros _.
  apply preserves_bind; [apply preserves_get|]. intros w1.
  apply preserves_if; [apply preserves_raise|].
  apply preserves_modify. intros; now apply Hmode.
Qed.

(** X2: [load] never writes: whatever the archive object and the disk,
    and whether it returns or raises, the disk after it is the disk before,
    and so are the file name and the writer's counter [entry_offset]. *)
Theorem load_keeps_disk (w : world) :
  disk (fst (load w)) = disk w
  ∧ OBT.filename (this (fst (load w))) = OBT.filename (this w)
  ∧ OBT.entry_offset (this (fst (load w))) = OBT.entry_offset (this w).
Proof.
  destruct (load w) as [w' r] eqn:Hrun. cbn [fst].
  refine (preserves_load
            (fun x => disk x = disk w
                      ∧ OBT.filename (this x) = OBT.filename (this w)
                      ∧ OBT.entry_offset (this x) = OBT.entry_offset (this w))
            _ _ w w' r _ Hrun).
  - split; [|split]; intros x ? Hx; exact Hx.
  - intros x m Hx. exact Hx.
  - repeat split.
Qed.

(** What [export_entry] returns or raises does not depend on where the
    file object stands. *)
Lemma export_entry_any_pos d ents nm p p' rd wr fname tot eo md (i : Z) :
  snd (export_entry i
         (World d (OBT.mk ents (Some (mkIO nm p rd wr)) fname tot eo md)))
  = snd (export_entry i
           (World d (OBT.mk ents (Some (mkIO nm p' rd wr)) fname tot eo md))).
Proof.
  unfold export_entry. rewrite !bind_get.
  cbn [this OBT.mode OBT.entries].
  destruct (negb (mode_eqb md OBT_Read)); [reflexivity|].
  destruct (ents !! i) as [e|]; [|reflexivity].
  unfold fp_seek, fp_read, bind, get, modify, raise, ret. cbn.
  destruct (OBTEntry.offset e <? 0); [reflexivity|]. cbn.
  destruct rd; reflexivity.
Qed.

(** X3: [export_entry] only moves the file position: the disk, the table,
    the mode and the other fields of the archive are as before, whether it
    returns or raises; and what it gives for an index is the same after
    any other [export_entry] as before it, so entries can be exported in
    any order and any number of times. *)
Theorem export_entry_repeatable (w : world) (i j : Z) :
  let w' := fst (export_entry j w) in
  disk w' = disk w
  ∧ OBT.entries (this w') = OBT.entries (this w)
  ∧ OBT.mode (this w') = OBT.mode (this w)
  ∧ OBT.total_size (this w') = OBT.total_size (this w)
  ∧ snd (export_entry i w') = snd (export_entry i w).
Proof.
  cbv zeta. destruct (export_entry j w) as [w' r] eqn:Hrun. cbn [fst].
  assert (disk w' = disk w
          ∧ OBT.entries (this w') = OBT.entries (this w)
          ∧ OBT.mode (this w') = OBT.mode (this w)
          ∧ OBT.total_size (this w') = OBT.total_size (this w)
          ∧ OBT.filename (this w') = OBT.filename (this w)
          ∧ OBT.entry_offset (this w') = OBT.entry_offset (this w)
          ∧ match OBT.fp (this w), OBT.fp (this w') with
            | Some h, Some h' =>
                io_name h' = io_name h ∧ io_readable h' = io_readable h
                ∧ io_writable h' = io_writable h
            | None, None => True
            | _, _ => False
            end) as Hsame.
  { revert Hrun. unfold export_entry. rewrite bind_get.
    destruct w as [d [ents fp0 fname tot eo md]].
    cbn [this OBT.mode OBT.entries OBT.fp disk OBT.total_size OBT.filename
         OBT.entry_offset].
    destruct (negb (mode_eqb md OBT_Read)).
    { intros [= <- <-]. cbn. destruct fp0; repeat split. }
    destruct (ents !! j) as [e|].
    2:{ intros [= <- <-]. cbn. destruct fp0; repeat split. }
    unfold fp_seek, fp_read, bind, get, modify, raise, ret. cbn.
    destruct fp0 as [[nm p rd wr]|]; cbn.
    2:{ intros [= <- <-]. cbn. repeat split. }
    destruct (OBTEntry.offset e <? 0); cbn.
    { intros [= <- <-]. cbn. repeat split. }
    destruct rd; cbn; intros [= <- <-]; cbn; repeat split. }
  destruct Hsame as (Hd & He & Hm & Ht & Hf & Ho & Hfp).
  repeat split; try assumption.
  destruct w as [d [ents fp0 fname tot eo md]].
  destruct w' as [d' [ents' fp1 fname' tot' eo' md']].
  cbn in Hd, He, Hm, Ht, Hf, Ho, Hfp. subst d' ents' md' tot' fname' eo'.
  destruct fp0 as [[nm p rd wr]|], fp1 as [[nm' p' rd' wr']|];
    try contradiction; [|reflexivity].
  cbn in Hfp. destruct Hfp as (-> & -> & ->).
  apply export_entry_any_pos.
Qed.

(** ** Opening *)



(** X5: an archive is opened once.  After an [init_write] or a [load] that
    returned, every further [init_write] and [load] raises "File is already
    opened" and changes nothing. *)
Theorem open_only_once (w w' : world) (overwrite overwrite' : bool) :
  init_write overwrite w = (w', inr tt) ∨ load w = (w', inr tt) →
  init_write overwrite' w' = (w', inl (OBTError "File is already opened"))
  ∧ load w' = (w', inl (OBTError "File is already opened")).
Proof.
  intros Hopen.
  assert (OBT.mode (this w') ≠ OBT_None) as Hm.
  { destruct Hopen as [Hrun|Hrun].
    - revert Hrun. unfold init_write. rewrite bind_get.
      destruct (negb _); [discriminate|].
      destruct (_ && _); [discriminate|].
      intros [= <-]. discriminate.
    - destruct (OBT.mode (this w)) eqn:Hmode.
      + pose proof (load_mode w w' (inr tt) Hmode Hrun) as H.
        unfold mode_is in H. congruence.
      + revert Hrun. unfold load. rewrite bind_get, Hmode. discriminate.
      + revert Hrun. unfold load. rewrite bind_get, Hmode. discriminate. }
  split.
  - unfold init_write. rewrite bind_get.
    destruct (OBT.mode (this w')); [congruence|reflexivity|reflexivity].
  - unfold load. rewrite bind_get.
    destruct (OBT.mode (this w')); [congruence|reflexivity|reflexivity].
Qed.

Lemma open_only_once_witness :
  let w := fresh {[ "out.obt" := ab_cde_file ]} "out.obt" in
  let w' := fst (load w) in
  (init_write true w = (w', inr tt) ∨ load w = (w', inr tt))
  ∧ init_write true w' = (w', inl (OBTError "File is already opened"))
  ∧ load w' = (w', inl (OBTError "File is already opened")).
Proof.
  intros w w'.
  assert (H : init_write true w = (w', inr tt) ∨ load w = (w', inr tt))
    by (right; vm_compute; reflexivity).
  exact (conj H (open_only_once w w' true true H)).
Defined.

(** X6: reading and writing exclude each other.  After a [load] that
    returned, [add_entry] and [finalize_write] raise "OBT has not been
    opened for writing" and change nothing; after an [init_write] that
    returned, [export_entry] raises "File is not opened" and changes
    nothing. *)
Theorem read_write_exclusive (w w' : world) :
  (load w = (w', inr tt) →
   (∀ b f, add_entry b f w'
           = (w', inl (OBTError "OBT has not been opened for writing")))
   ∧ finalize_write w'
     = (w', inl (OBTError "OBT has not been opened for writing")))
  ∧ (∀ overwrite, init_write overwrite w = (w', inr tt) →
     ∀ i, export_entry i w' = (w', inl (OBTError "File is not opened"))).
Proof.
  split.
  - intros Hrun.
    assert (OBT.mode (this w') = OBT_Read) as Hm.
    { destruct (OBT.mode (this w)) eqn:Hmode.
      - exact (load_mode w w' (inr tt) Hmode Hrun).
      - revert Hrun. unfold load. rewrite bind_get, Hmode. discriminate.
      - revert Hrun. unfold load. rewrite bind_get, Hmode. discriminate. }
    split.
    + intros b f. apply add_entry_wrong_mode. congruence.
    + apply finalize_write_wrong_mode. congruence.
  - intros overwrite Hrun i. apply export_entry_wrong_mode.
    revert Hrun. unfold init_write. rewrite bind_get.
    destruct (negb _); [discriminate|].
    destruct (_ && _); [discriminate|].
    intros [= <-]. discriminate.
Qed.

Lemma read_write_exclusive_witness :
  let w := fresh {[ "out.obt" := ab_cde_file ]} "out.obt" in
  (load w = (fst (load w), inr tt)
   ∧ (∀ b f, add_entry b f (fst (load w))
             = (fst (load w),
                inl (OBTError "OBT has not been opened for writing")))
   ∧ finalize_write (fst (load w))
     = (fst (load w), inl (OBTError "OBT has not been opened for writing")))
  ∧ (init_write true w = (fst (init_write true w), inr tt)
     ∧ ∀ i, export_entry i (fst (init_write true w))
            = (fst (init_write true w), inl (OBTError "File is not opened"))).
Proof.
  intros w. split.
  - assert (H : load w = (fst (load w), inr tt)) by (vm_compute; reflexivity).
    exact (conj H (proj1 (read_write_exclusive w _) H)).
  - assert (H : init_write true w = (fst (init_write true w), inr tt))
      by (vm_compute; reflexivity).
    exact (conj H (proj2 (read_write_exclusive w _) true H)).
Defined.

(** ** The writer, on a file that already has contents *)

Lemma write_at_overlay (pre old bs : list byte) :
  write_at (length pre) bs (overlay pre old) = overlay (pre ++ bs) old.
Proof.
  unfold write_at, overlay.
  rewrite take_app_length.
  replace (length pre - length (pre ++ drop (length pre) old))%nat with 0%nat
    by (rewrite length_app; lia).
  cbn [replicate app].
  rewrite drop_app_add, drop_drop, length_app, <- app_assoc. reflexivity.
Qed.

Lemma overlay_nil (pre : list byte) : overlay pre [] = pre.
Proof. unfold overlay. now rewrite drop_nil, app_nil_r. Qed.

Lemma overlay_short (pre old : list byte) :
  (length old <= length pre)%nat → overlay pre old = pre.
Proof.
  intros H. unfold overlay. rewrite drop_ge by lia. apply app_nil_r.
Qed.

Lemma overlay_0 (old : list byte) : overlay [] old = old.
Proof. reflexivity. Qed.

Section WriteOver.

Variables (ents : gmap Z OBTEntry.t) (name fname : string) (rd : bool)
  (tot eo : Z) (md : OBTFileMode) (old : list byte).

Local Abbreviation at_pos d p := (writing ents name fname rd tot eo md d p).

Lemma over_eq {A} d d' p p' (x x' : A) :
  d = d' → p = p' → x = x' →
  (at_pos d p, inr x) = (at_pos d' p', inr (A:=exn) x').
Proof. now intros -> -> ->. Qed.

Lemma write_row_over d (pre : list byte) (i off : Z) x :
  ents !! i = Some (blob_entry x) →
  d !! name = Some (overlay pre old) →
  0 <= off < U32_LIMIT → blob_size x < U32_LIMIT →
  write_row i off (at_pos d (Z.of_nat (length pre)))
  = (at_pos (<[name := overlay (pre ++ header_bytes off [x]) old]> d)
       (Z.of_nat (length pre) + 12), inr (off + blob_size x)).
Proof.
  intros Hi Hd Hoff Hsz. unfold write_row, writing.
  erewrite bind_inr by (apply lookup_entry_run; exact Hi).
  cbn [blob_entry OBTEntry.size OBTEntry.is_compressed].
  rewrite struct_pack_III_ok by (pose proof (blob_size_nonneg x); lia).
  rewrite bind_lift_inr.
  erewrite bind_inr by apply fp_write_run.
  rewrite (file_data_lookup _ _ _ Hd), Nat2Z.id, write_at_overlay.
  rewrite !length_app, !length_int_to_bytes.
  cbn [header_bytes]. rewrite app_nil_r. reflexivity.
Qed.

Lemma write_rows_over (rest : list (list byte * bool)) :
  ∀ (k : nat) (off : Z) d (pre : list byte),
    (∀ i x, rest !! i = Some x →
            ents !! Z.of_nat (k + i) = Some (blob_entry x)) →
    d !! name = Some (overlay pre old) →
    fits_u32 off rest = true →
    for_in (Z.of_nat <$> seq k (length rest)) write_row off
      (at_pos d (Z.of_nat (length pre)))
    = (at_pos (<[name := overlay (pre ++ header_bytes off rest) old]> d)
         (Z.of_nat (length pre) + 12 * Z.of_nat (length rest)),
       inr (off + total_sizes rest)).
Proof.
  induction rest as [|x rest IH]; intros k off d pre Hents Hd Hfits.
  - cbn [length seq fmap list_fmap for_in header_bytes total_sizes foldr].
    rewrite app_nil_r, insert_id by assumption.
    unfold ret. apply over_eq; [reflexivity|lia|lia].
  - apply fits_u32_cons in Hfits as (Hoff & Hsz & Hrest).
    cbn [length seq fmap list_fmap for_in].
    erewrite bind_inr.
    2:{ apply write_row_over with (x := x); [|exact Hd|lia|lia].
        specialize (Hents 0%nat x eq_refl). now rewrite Nat.add_0_r in Hents. }
    replace (Z.of_nat (length pre) + 12)
      with (Z.of_nat (length (pre ++ header_bytes off [x])))
      by (rewrite length_app, header_bytes_length; cbn [length]; lia).
    rewrite (IH (S k) (off + blob_size x) _ (pre ++ header_bytes off [x])).
    + rewrite insert_insert_eq.
      cbn [header_bytes total_sizes foldr]. rewrite app_nil_r, <- !app_assoc.
      fold (total_sizes rest).
      rewrite !length_app, !length_int_to_bytes. cbn [length].
      apply over_eq; [reflexivity|lia|lia].
    + intros i y Hy. specialize (Hents (S i) y Hy).
      now replace (S k + i)%nat with (k + S i)%nat by lia.
    + apply lookup_insert_eq.
    + exact Hrest.
Qed.

Lemma write_payload_over d (pre : list byte) (i : Z) x :
  ents !! i = Some (blob_entry x) →
  d !! name = Some (overlay pre old) →
  write_payload i tt (at_pos d (Z.of_nat (length pre)))
  = (at_pos (<[name := overlay (pre ++ fst x) old]> d)
       (Z.of_nat (length pre) + blob_size x), inr tt).
Proof.
  intros Hi Hd. unfold write_payload, writing.
  erewrite bind_inr by (apply lookup_entry_run; exact Hi).
  cbn [blob_entry OBTEntry.raw_entry].
  rewrite fp_write_run.
  rewrite (file_data_lookup _ _ _ Hd), Nat2Z.id, write_at_overlay.
  reflexivity.
Qed.

Lemma write_payloads_over (rest : list (list byte * bool)) :
  ∀ (k : nat) d (pre : list byte),
    (∀ i x, rest !! i = Some x →
            ents !! Z.of_nat (k + i) = Some (blob_entry x)) →
    d !! name = Some (overlay pre old) →
    for_in (Z.of_nat <$> seq k (length rest)) write_payload tt
      (at_pos d (Z.of_nat (length pre)))
    = (at_pos (<[name := overlay (pre ++ payload_bytes rest) old]> d)
         (Z.of_nat (length pre) + total_sizes rest), inr tt).
Proof.
  induction rest as [|x rest IH]; intros k d pre Hents Hd.
  - cbn [length seq fmap list_fmap for_in payload_bytes concat
         total_sizes foldr].
    rewrite app_nil_r, insert_id by assumption.
    unfold ret. apply over_eq; [reflexivity|lia|reflexivity].
  - cbn [length seq fmap list_fmap for_in].
    erewrite bind_inr.
    2:{ apply write_payload_over with (x := x); [|exact Hd].
        specialize (Hents 0%nat x eq_refl). now rewrite Nat.add_0_r in Hents. }
    replace (Z.of_nat (length pre) + blob_size x)
      with (Z.of_nat (length (pre ++ fst x)))
      by (rewrite length_app; unfold blob_size; lia).
    rewrite (IH (S k) _ (pre ++ fst x)).
    + rewrite insert_insert_eq.
      unfold payload_bytes. cbn [fmap list_fmap concat total_sizes foldr].
      rewrite <- app_assoc.
      rewrite length_app. fold (total_sizes rest). unfold blob_size.
      apply over_eq; [reflexivity|lia|reflexivity].
    + intros i y Hy. specialize (Hents (S i) y Hy).
      now replace (S k + i)%nat with (k + S i)%nat by lia.
    + apply lookup_insert_eq.
Qed.

End WriteOver.

(** [finalize_write] whatever the file holds and wherever the file object
    stands: the archive is written from position 0 over the old contents. *)
Lemma finalize_write_over d name fname p rd tot eo
    (blobs : list (list byte * bool)) (old : list byte) :
  blobs ≠ [] →
  d !! name = Some old →
  fits_u32 (12 * Z.of_nat (length blobs)) blobs = true →
  finalize_write
    (World d (OBT.mk (entries_of 0 blobs) (Some (mkIO name p rd true))
                fname tot eo OBT_Write))
  = (World (<[name := overlay (archive_bytes blobs) old]> d)
       (OBT.mk (entries_of 0 blobs)
          (Some (mkIO name (Z.of_nat (length (archive_bytes blobs))) rd true))
          fname tot eo OBT_Write), inr tt).
Proof.
  intros Hne Hd Hfits. unfold finalize_write. rewrite bind_get.
  cbn [this OBT.mode OBT.entries mode_eqb negb].
  rewrite entries_of_size.
  destruct (Z.of_nat (length blobs) =? 0) eqn:E1.
  { apply Z.eqb_eq in E1. destruct blobs; [congruence|cbn [length] in E1; lia]. }
  erewrite bind_inr by (apply fp_seek_run; lia).
  cbn [io_name io_readable io_writable].
  unfold range. rewrite Nat2Z.id.
  replace (12 * Z.of_nat (length blobs)) with (Z.of_nat (length blobs) * 12)
    in Hfits by lia.
  pose proof (write_rows_over (entries_of 0 blobs) name fname rd tot eo
                OBT_Write old blobs 0 (Z.of_nat (length blobs) * 12) d []
                (entries_of_0_lookup blobs) Hd Hfits) as Hrows.
  unfold writing in Hrows.
  change (Z.of_nat (length (@nil byte))) with 0 in Hrows.
  rewrite app_nil_l in Hrows.
  erewrite bind_inr by exact Hrows.
  set (hdr := header_bytes (Z.of_nat (length blobs) * 12) blobs) in *.
  pose proof (write_payloads_over (entries_of 0 blobs) name fname rd tot eo
                OBT_Write old blobs 0 (<[name := overlay hdr old]> d) hdr
                (entries_of_0_lookup blobs) (lookup_insert_eq _ _ _)) as Hpay.
  unfold writing in Hpay.
  replace (Z.of_nat (length hdr)) with (0 + 12 * Z.of_nat (length blobs))
    in Hpay by (subst hdr; rewrite header_bytes_length; lia).
  rewrite insert_insert_eq in Hpay. rewrite Hpay.
  rewrite archive_bytes_length. unfold archive_bytes. subst hdr.
  rewrite (Z.mul_comm 12), Z.add_0_l. reflexivity.
Qed.

(** ** Adding entries *)

(** X7: [add_entry] numbers the entries 0, 1, 2, ... in call order and
    writes nothing: after [init_write] and one [add_entry] per payload the
    table has exactly one record per payload, record [i] holding payload
    [i], its length and its flag, not yet placed ([offset = -1]) and not
    loaded; the counter is the number of payloads and the file is still
    empty. *)
Theorem add_entries_numbering (d : FS) (name : string) (overwrite : bool)
    (blobs : list (list byte * bool)) :
  d !! name = None ∨ overwrite = true →
  ∃ w,
    (init_write overwrite ;; add_entries blobs) (fresh d name) = (w, inr tt)
    ∧ size (OBT.entries (this w)) = length blobs
    ∧ (∀ (i : nat) b f, blobs !! i = Some (b, f) →
         OBT.entries (this w) !! Z.of_nat i
         = Some (OBTEntry.mk (-1) (Z.of_nat (length b)) (Z.b2z f) false
                   (Some b)))
    ∧ (∀ z, z < 0 ∨ Z.of_nat (length blobs) <= z →
            OBT.entries (this w) !! z = None)
    ∧ OBT.entry_offset (this w) = Z.of_nat (length blobs)
    ∧ disk w !! name = Some [].
Proof.
  intros Hfree. eexists. split.
  { erewrite bind_inr by (apply init_write_run; exact Hfree).
    apply (add_entries_run _ _ _ _ blobs []). }
  cbn [app this disk OBT.entries OBT.entry_offset].
  split; [apply entries_of_size|]. split; [|split; [|split]].
  - intros i b f Hi. pose proof (entries_of_lookup 0 blobs i) as H.
    rewrite Z.add_0_l, Hi in H. exact H.
  - intros z [Hz|Hz]; [now apply entries_of_lookup_lt|].
    pose proof (entries_of_lookup 0 blobs (Z.to_nat z)) as H.
    rewrite Z.add_0_l, Z2Nat.id in H by lia. rewrite H.
    rewrite lookup_ge_None_2 by lia. reflexivity.
  - reflexivity.
  - apply lookup_insert_eq.
Qed.

Lemma add_entries_numbering_witness :
  ((∅ : FS) !! "out.obt" = None ∨ false = true)
  ∧ ∃ w,
      (init_write false ;; add_entries ab_cde) (fresh ∅ "out.obt")
      = (w, inr tt)
      ∧ size (OBT.entries (this w)) = length ab_cde
      ∧ (∀ (i : nat) b f, ab_cde !! i = Some (b, f) →
           OBT.entries (this w) !! Z.of_nat i
           = Some (OBTEntry.mk (-1) (Z.of_nat (length b)) (Z.b2z f) false
                     (Some b)))
      ∧ (∀ z, z < 0 ∨ Z.of_nat (length ab_cde) <= z →
              OBT.entries (this w) !! z = None)
      ∧ OBT.entry_offset (this w) = Z.of_nat (length ab_cde)
      ∧ disk w !! "out.obt" = Some [].
Proof.
  assert (H : (∅ : FS) !! "out.obt" = None ∨ false = true)
    by (left; reflexivity).
  exact (conj H (add_entries_numbering ∅ "out.obt" false ab_cde H)).
Defined.

(** ** The layout of a written file *)

(** X8: the layout [finalize_write] gives the file.  For [n] payloads that
    fit the 32-bit fields, the file has [12 * n] bytes of header and then
    the payloads with nothing in between: row [i] unpacks to the offset
    [12 * n + size_0 + ... + size_(i-1)], the length of payload [i] and its
    flag, so the first offset is [12 * n], each offset is the previous one
    plus the previous size, and the file ends where the last payload
    ends. *)
Theorem written_file_layout (d : FS) (name : string) (overwrite : bool)
    (blobs : list (list byte * bool)) :
  blobs ≠ [] →
  d !! name = None ∨ overwrite = true →
  fits_u32 (12 * Z.of_nat (length blobs)) blobs = true →
  ∃ w data,
    write_archive overwrite blobs (fresh d name) = (w, inr tt)
    ∧ disk w !! name = Some data
    ∧ (∀ other, other ≠ name → disk w !! other = d !! other)
    ∧ Z.of_nat (length data)
      = 12 * Z.of_nat (length blobs) + total_sizes blobs
    ∧ drop (12 * length blobs) data = concat (fst <$> blobs)
    ∧ ∀ (i : nat) b f, blobs !! i = Some (b, f) →
        struct_unpack_III (row_bytes data i)
        = inr (12 * Z.of_nat (length blobs) + total_sizes (take i blobs),
               Z.of_nat (length b), Z.b2z f).
Proof.
  intros Hne Hfree Hfits. eexists. exists (archive_bytes blobs).
  split; [apply write_archive_ok; assumption|].
  cbn [disk]. split; [apply lookup_insert_eq|].
  split; [intros other Hother; now apply lookup_insert_ne|].
  split; [apply archive_bytes_length|]. split.
  - unfold archive_bytes. rewrite drop_app_length'; [reflexivity|].
    now rewrite header_bytes_length.
  - intros i b f Hi.
    pose proof (row_at_header _ _ (payload_bytes blobs) _ _ Hfits Hi) as Hrow.
    fold (archive_bytes blobs) in Hrow.
    unfold struct_unpack_III.
    assert (length (row_bytes (archive_bytes blobs) i) = 12%nat) as ->.
    { apply row_bytes_length.
      pose proof (lookup_lt_Some _ _ _ Hi).
      pose proof (archive_bytes_length blobs).
      pose proof (total_sizes_nonneg blobs). lia. }
    cbn [Nat.eqb]. unfold row_at in Hrow. now rewrite Hrow.
Qed.

Lemma written_file_layout_witness :
  ab_cde ≠ []
  ∧ ((∅ : FS) !! "out.obt" = None ∨ false = true)
  ∧ fits_u32 (12 * Z.of_nat (length ab_cde)) ab_cde = true
  ∧ ∃ w data,
      write_archive false ab_cde (fresh ∅ "out.obt") = (w, inr tt)
      ∧ disk w !! "out.obt" = Some data
      ∧ (∀ other, other ≠ "out.obt" → disk w !! other = (∅ : FS) !! other)
      ∧ Z.of_nat (length data)
        = 12 * Z.of_nat (length ab_cde) + total_sizes ab_cde
      ∧ drop (12 * length ab_cde) data = concat (fst <$> ab_cde)
      ∧ ∀ (i : nat) b f, ab_cde !! i = Some (b, f) →
          struct_unpack_III (row_bytes data i)
          = inr (12 * Z.of_nat (length ab_cde) + total_sizes (take i ab_cde),
                 Z.of_nat (length b), Z.b2z f).
Proof.
  assert (H1 : ab_cde ≠ []) by discriminate.
  assert (H2 : (∅ : FS) !! "out.obt" = None ∨ false = true)
    by (left; reflexivity).
  assert (H3 : fits_u32 (12 * Z.of_nat (length ab_cde)) ab_cde = true)
    by reflexivity.
  exact (conj H1 (conj H2 (conj H3
           (written_file_layout ∅ "out.obt" false ab_cde H1 H2 H3)))).
Defined.

(** ** Finalizing again, with nothing, with too much *)

Lemma init_write_refuses d name (data : list byte) :
  d !! name = Some data →
  ∃ msg, init_write false (fresh d name) = (fresh d name, inl (OBTError msg)).
Proof.
  intros Hd. eexists. unfold init_write, fresh. rewrite bind_get.
  cbn [this disk OBT.init OBT.mode OBT.filename mode_eqb negb].
  unfold isfile. rewrite Hd. reflexivity.
Qed.

Lemma write_archive_nothing d name (overwrite : bool) :
  d !! name = None ∨ overwrite = true →
  write_archive overwrite [] (fresh d name)
  = (World (<[name := []]> d)
       (OBT.mk ∅ (Some (mkIO name 0 true true)) name 0 0 OBT_Write),
     inl (OBTError "No entries to write")).
Proof.
  intros Hfree. unfold write_archive.
  erewrite bind_inr by (apply init_write_run; exact Hfree).
  reflexivity.
Qed.

(** A writer that returned was allowed to open its file, had entries, and
    these fitted the 32-bit fields. *)
Lemma write_archive_inr_inv d name (overwrite : bool)
    (blobs : list (list byte * bool)) (w : world) :
  write_archive overwrite blobs (fresh d name) = (w, inr tt) →
  blobs ≠ []
  ∧ (d !! name = None ∨ overwrite = true)
  ∧ fits_u32 (12 * Z.of_nat (length blobs)) blobs = true.
Proof.
  intros Hrun.
  assert (d !! name = None ∨ overwrite = true) as Hfree.
  { destruct (d !! name) as [data|] eqn:Hd; [|now left].
    destruct overwrite; [now right|].
    destruct (init_write_refuses d name data Hd) as [msg Hmsg].
    unfold write_archive in Hrun. erewrite bind_inl in Hrun by exact Hmsg.
    discriminate. }
  assert (blobs ≠ []) as Hne.
  { intros ->. rewrite write_archive_nothing in Hrun by assumption.
    discriminate. }
  repeat split; try assumption.
  destruct (fits_u32 _ blobs) eqn:Hfits; [reflexivity|].
  destruct (write_archive_overflow d name overwrite blobs Hne Hfree Hfits)
    as [w' Hw']. congruence.
Qed.

Lemma archive_bytes_app_length (blobs more : list (list byte * bool)) :
  (length (archive_bytes blobs) <= length (archive_bytes (blobs ++ more)))%nat.
Proof.
  pose proof (archive_bytes_length blobs).
  pose proof (archive_bytes_length (blobs ++ more)) as H2.
  rewrite length_app, total_sizes_app in H2.
  pose proof (total_sizes_nonneg more). lia.
Qed.

(** X9: [finalize_write] can be called again.  After a writer that
    returned, a second [finalize_write] returns and leaves the world
    exactly as it was: the same bytes are written over themselves.  After
    further [add_entry] calls it rewrites the whole file, which is then the
    file a new writer would produce for all the entries in order. *)
Theorem finalize_write_again (d : FS) (name : string) (overwrite : bool)
    (blobs : list (list byte * bool)) (w : world) :
  write_archive overwrite blobs (fresh d name) = (w, inr tt) →
  finalize_write w = (w, inr tt)
  ∧ ∀ more,
      fits_u32 (12 * Z.of_nat (length (blobs ++ more))) (blobs ++ more) = true →
      ∃ w' w'',
        (add_entries more ;; finalize_write) w = (w', inr tt)
        ∧ write_archive true (blobs ++ more) (fresh d name) = (w'', inr tt)
        ∧ disk w' = disk w''.
Proof.
  intros Hrun.
  destruct (write_archive_inr_inv _ _ _ _ _ Hrun) as (Hne & Hfree & Hfits).
  rewrite write_archive_ok in Hrun by assumption. injection Hrun as <-.
  split.
  - rewrite (finalize_write_over _ _ _ _ _ _ _ blobs (archive_bytes blobs));
      [|assumption|apply lookup_insert_eq|assumption].
    rewrite insert_insert_eq, overlay_short by lia. reflexivity.
  - intros more Hfits'.
    assert (blobs ++ more ≠ []) as Hne' by (destruct blobs; [congruence|discriminate]).
    do 2 eexists. split; [|split].
    + erewrite bind_inr by (apply (add_entries_run _ _ _ _ more blobs)).
      apply (finalize_write_over _ _ _ _ _ _ _ (blobs ++ more)
               (archive_bytes blobs));
        [assumption|apply lookup_insert_eq|assumption].
    + apply write_archive_ok; [assumption|now right|assumption].
    + cbn [disk]. rewrite insert_insert_eq.
      rewrite overlay_short by apply archive_bytes_app_length. reflexivity.
Qed.

Lemma finalize_write_again_witness :
  let w := fst (write_archive false ab_cde (fresh ∅ "out.obt")) in
  write_archive false ab_cde (fresh ∅ "out.obt") = (w, inr tt)
  ∧ finalize_write w = (w, inr tt)
  ∧ ∀ more,
      fits_u32 (12 * Z.of_nat (length (ab_cde ++ more))) (ab_cde ++ more)
      = true →
      ∃ w' w'',
        (add_entries more ;; finalize_write) w = (w', inr tt)
        ∧ write_archive true (ab_cde ++ more) (fresh ∅ "out.obt")
          = (w'', inr tt)
        ∧ disk w' = disk w''.
Proof.
  intros w.
  assert (H : write_archive false ab_cde (fresh ∅ "out.obt") = (w, inr tt))
    by (vm_compute; reflexivity).
  exact (conj H (finalize_write_again ∅ "out.obt" false ab_cde w H)).
Defined.

(** X10: a writer without entries.  [finalize_write] with nothing added
    raises "No entries to write", but [init_write] has already created or
    emptied the file: what is left on disk is an empty file, and the old
    contents, if any, are lost. *)
Theorem write_archive_no_entries (d : FS) (name : string) (overwrite : bool) :
  d !! name = None ∨ overwrite = true →
  ∃ w, write_archive overwrite [] (fresh d name)
       = (w, inl (OBTError "No entries to write"))
       ∧ disk w = <[name := []]> d.
Proof.
  intros Hfree. eexists. split; [now apply write_archive_nothing|reflexivity].
Qed.

Lemma write_archive_no_entries_witness :
  let d : FS := {[ "out.obt" := ab_cde_file ]} in
  (d !! "out.obt" = None ∨ true = true)
  ∧ ∃ w, write_archive true [] (fresh d "out.obt")
         = (w, inl (OBTError "No entries to write"))
         ∧ disk w = <["out.obt" := []]> d.
Proof.
  intros d.
  assert (H : d !! "out.obt" = None ∨ true = true) by (right; reflexivity).
  exact (conj H (write_archive_no_entries d "out.obt" true H)).
Defined.

Section WriteStop.

Variables (ents : gmap Z OBTEntry.t) (name fname : string) (rd : bool)
  (tot eo : Z) (md : OBTFileMode).

Local Abbreviation at_pos d p := (writing ents name fname rd tot eo md d p).

Lemma stop_eq d p p' (e : exn) :
  p = p' → (at_pos d p, inl (B:=Z) e) = (at_pos d p', inl e).
Proof. now intros ->. Qed.

(** The header loop stops at the first entry that does not fit: the rows
    before it are in the file. *)
Lemma write_rows_stop (l1 : list (list byte * bool)) :
  ∀ (k : nat) (off : Z) d (pre : list byte) x l2,
    (∀ i y, (l1 ++ x :: l2) !! i = Some y →
            ents !! Z.of_nat (k + i) = Some (blob_entry y)) →
    d !! name = Some pre →
    0 <= off →
    fits_u32 off l1 = true →
    fits_u32 (off + total_sizes l1) [x] = false →
    for_in (Z.of_nat <$> seq k (length (l1 ++ x :: l2))) write_row off
      (at_pos d (Z.of_nat (length pre)))
    = (at_pos (<[name := pre ++ header_bytes off l1]> d)
         (Z.of_nat (length pre) + 12 * Z.of_nat (length l1)),
       inl StructError).
Proof.
  induction l1 as [|y l1 IH]; intros k off d pre x l2 Hents Hd Hoff Hfits Hbad.
  - cbn [app length seq fmap list_fmap for_in header_bytes total_sizes foldr]
      in *.
    rewrite Z.add_0_r in Hbad. rewrite app_nil_r, insert_id by assumption.
    assert (write_row (Z.of_nat k) off (at_pos d (Z.of_nat (length pre)))
            = (at_pos d (Z.of_nat (length pre)), inl StructError)) as Hfail.
    { unfold write_row.
      erewrite bind_inr.
      2:{ apply lookup_entry_run. cbn [writing this OBT.entries].
          specialize (Hents 0%nat x eq_refl). rewrite Nat.add_0_r in Hents.
          exact Hents. }
      cbn [blob_entry OBTEntry.size OBTEntry.is_compressed].
      rewrite struct_pack_III_overflow; [reflexivity|].
      cbn [fits_u32] in Hbad. rewrite andb_true_r in Hbad.
      destruct (0 <=? off) eqn:E0; [|lia].
      destruct (off <? U32_LIMIT) eqn:E1; [|lia].
      destruct (blob_size x <? U32_LIMIT) eqn:E2; [discriminate|lia]. }
    erewrite bind_inl by exact Hfail.
    apply stop_eq. lia.
  - apply fits_u32_cons in Hfits as (Hoffy & Hszy & Hrest).
    cbn [app length seq fmap list_fmap for_in].
    erewrite bind_inr.
    2:{ apply write_row_run with (x := y); [|exact Hd|lia|lia].
        specialize (Hents 0%nat y eq_refl). now rewrite Nat.add_0_r in Hents. }
    replace (Z.of_nat (length pre) + 12)
      with (Z.of_nat (length (pre ++ header_bytes off [y])))
      by (rewrite length_app, header_bytes_length; cbn [length]; lia).
    rewrite (IH (S k) (off + blob_size y) _ (pre ++ header_bytes off [y]) x l2).
    + rewrite insert_insert_eq.
      cbn [header_bytes]. rewrite app_nil_r, <- !app_assoc.
      rewrite !length_app, !length_int_to_bytes. cbn [length].
      apply stop_eq. lia.
    + intros i z Hz. specialize (Hents (S i) z Hz).
      now replace (S k + i)%nat with (k + S i)%nat by lia.
    + apply lookup_insert_eq.
    + lia.
    + exact Hrest.
    + cbn [total_sizes foldr] in Hbad. fold (total_sizes l1) in Hbad.
      now rewrite Z.add_assoc in Hbad.
Qed.

End WriteStop.

(** X11: [finalize_write] is not all-or-nothing.  When the entry after
    [before] is the first whose offset or size does not fit 32 bits,
    [struct.pack] raises [struct.error] after the header rows of [before]
    have been written: the file is left holding just these rows, with no
    payload. *)
Theorem finalize_write_stops_midway (d : FS) (name : string)
    (overwrite : bool) (before after : list (list byte * bool))
    (x : list byte * bool) :
  d !! name = None ∨ overwrite = true →
  let blobs := before ++ x :: after in
  let off0 := 12 * Z.of_nat (length blobs) in
  fits_u32 off0 before = true →
  fits_u32 (off0 + total_sizes before) [x] = false →
  ∃ w, write_archive overwrite blobs (fresh d name) = (w, inl StructError)
       ∧ disk w !! name = Some (header_bytes off0 before).
Proof.
  intros Hfree blobs off0 Hfits Hbad. eexists. split.
  - unfold write_archive.
    erewrite bind_inr by (apply init_write_run; exact Hfree).
    erewrite bind_inr by (apply (add_entries_run _ _ _ _ blobs [])).
    cbn [app]. unfold finalize_write. rewrite bind_get.
    cbn [this OBT.mode OBT.entries mode_eqb negb].
    rewrite entries_of_size.
    destruct (Z.of_nat (length blobs) =? 0) eqn:E1.
    { apply Z.eqb_eq in E1. subst blobs. rewrite length_app in E1.
      cbn [length] in E1. lia. }
    erewrite bind_inr by (apply fp_seek_run; lia).
    cbn [io_name io_readable io_writable].
    unfold range. rewrite Nat2Z.id.
    pose proof (write_rows_stop (entries_of 0 blobs) name name true 0
                  (Z.of_nat (length blobs)) OBT_Write before 0
                  (Z.of_nat (length blobs) * 12) (<[name := []]> d) [] x after
                  (entries_of_0_lookup blobs) (lookup_insert_eq _ _ _)
                  ltac:(lia)) as Hstop.
    replace (Z.of_nat (length blobs) * 12) with off0 in Hstop |- *
      by (subst off0; lia).
    specialize (Hstop Hfits Hbad).
    unfold writing in Hstop.
    change (Z.of_nat (length (@nil byte))) with 0 in Hstop.
    erewrite bind_inl by exact Hstop. reflexivity.
  - cbn [disk app]. rewrite insert_insert_eq. apply lookup_insert_eq.
Qed.

Lemma finalize_write_stops_midway_witness :
  let before := [(big_blob, false)] in
  let x : list byte * bool := ([], false) in
  let blobs := before ++ x :: [] in
  let off0 := 12 * Z.of_nat (length blobs) in
  ((∅ : FS) !! "big.obt" = None ∨ false = true)
  ∧ fits_u32 off0 before = true
  ∧ fits_u32 (off0 + total_sizes before) [x] = false
  ∧ ∃ w, write_archive false blobs (fresh ∅ "big.obt") = (w, inl StructError)
         ∧ disk w !! "big.obt" = Some (header_bytes off0 before).
Proof.
  intros before x blobs off0.
  assert (Hlen : blob_size (big_blob, false) = U32_LIMIT - 24).
  { unfold blob_size, big_blob. cbn [fst]. rewrite length_replicate.
    apply Z2Nat.id. unfold U32_LIMIT. lia. }
  assert (H1 : (∅ : FS) !! "big.obt" = None ∨ false = true)
    by (left; reflexivity).
  assert (H2 : fits_u32 off0 before = true).
  { subst off0 before blobs. cbn [fits_u32 app length]. rewrite Hlen.
    reflexivity. }
  assert (H3 : fits_u32 (off0 + total_sizes before) [x] = false).
  { subst off0 before blobs. cbn [fits_u32 app length total_sizes foldr].
    rewrite Hlen. reflexivity. }
  exact (conj H1 (conj H2 (conj H3
           (finalize_write_stops_midway ∅ "big.obt" false before [] x
              H1 H2 H3)))).
Defined.

(** ** The reader on a written header followed by anything *)

Section HeaderTail.

Variables (l : list (list byte * bool)) (tail : list byte).
Hypothesis Hne : l ≠ [].
Hypothesis Hfits : fits_u32 (12 * Z.of_nat (length l)) l = true.

Local Abbreviation file := (header_bytes (12 * Z.of_nat (length l)) l ++ tail).

Lemma length_pos : (0 < length l)%nat.
Proof.
  assert (∀ m : list (list byte * bool), m ≠ [] → (0 < length m)%nat) as H
    by (intros [|? ?]; [congruence|cbn; lia]).
  exact (H l Hne).
Qed.

Lemma header_size_tail : header_size file = 12 * Z.of_nat (length l).
Proof.
  destruct l as [|x l']; [congruence|].
  apply fits_u32_cons in Hfits as (Hoff & _ & _).
  unfold header_size. cbn [header_bytes].
  rewrite <- !app_assoc.
  rewrite take_app_length' by (now rewrite length_int_to_bytes).
  now apply int_from_to_bytes_4.
Qed.

Lemma row_count_tail : row_count file = length l.
Proof.
  unfold row_count. rewrite header_size_tail.
  rewrite Z.mul_comm, Z.div_mul by lia. apply Nat2Z.id.
Qed.

Lemma file_tail_length :
  Z.of_nat (length file) = 12 * Z.of_nat (length l) + Z.of_nat (length tail).
Proof. rewrite length_app, header_bytes_length. lia. Qed.

Lemma row_entry_tail (i : nat) x :
  l !! i = Some x →
  row_entry file i
  = OBTEntry.mk (12 * Z.of_nat (length l) + total_sizes (take i l))
      (blob_size x) (Z.b2z (snd x)) true None.
Proof.
  intros Hx. unfold row_entry, row_offset, row_size, row_flag.
  now rewrite (row_at_header _ _ _ _ _ Hfits Hx).
Qed.

Lemma flags_ok_tail :
  Forall (fun i => flag_ok (row_flag file i) = true) (seq 0 (length l)).
Proof.
  apply Forall_forall. intros i Hi. apply elem_of_seq in Hi.
  destruct (lookup_lt_is_Some_2 l i ltac:(lia)) as [x Hx].
  unfold row_flag. rewrite (row_at_header _ _ _ _ _ Hfits Hx). cbn [snd].
  now destruct (snd x).
Qed.

Lemma declared_size_tail :
  declared_size file (seq 0 (length l)) = total_sizes l.
Proof.
  apply declared_size_rows. intros i x Hx. unfold row_size.
  now rewrite (row_at_header _ _ _ _ _ Hfits Hx).
Qed.

(** [load] returns when the tail holds at least the declared bytes. *)
Lemma load_tail_ok d name :
  d !! name = Some file →
  total_sizes l <= Z.of_nat (length tail) →
  ∃ p,
    load (fresh d name)
    = (World d
         (OBT.mk (bind_rows file (seq 0 (length l)) ∅)
            (Some (mkIO name p true false)) name
            (12 * Z.of_nat (length l) + total_sizes l) 0 OBT_Read), inr tt).
Proof.
  intros Hd Hlen.
  pose proof header_size_tail as Hhs. pose proof row_count_tail as Hrc.
  pose proof file_tail_length as Hfl. pose proof declared_size_tail as Hds.
  pose proof (total_sizes_nonneg l) as Hts.
  pose proof length_pos as Hpos.
  assert (4 <= Z.of_nat (length file)) as H4 by lia.
  destruct (load_ok d ∅ None name 0 0 file Hd H4) as [p Hp].
  - lia.
  - rewrite Hrc. apply flags_ok_tail.
  - rewrite Hrc, Hds, Hhs. lia.
  - exists p. unfold fresh, OBT.init. rewrite Hp, Hrc, Hds, Hhs.
    reflexivity.
Qed.

(** [load] raises when the tail is shorter than the declared bytes. *)
Lemma load_tail_short d name :
  d !! name = Some file →
  Z.of_nat (length tail) < total_sizes l →
  ∃ w, load (fresh d name)
       = (w, inl (InvalidOBTFileError "Not enough data in file")).
Proof.
  intros Hd Hlen.
  pose proof header_size_tail as Hhs. pose proof row_count_tail as Hrc.
  pose proof file_tail_length as Hfl. pose proof declared_size_tail as Hds.
  pose proof length_pos as Hpos.
  assert (4 <= Z.of_nat (length file)) as H4 by lia.
  destruct (load_not_enough d ∅ None name 0 0 file Hd H4) as [p Hp].
  - lia.
  - rewrite Hrc. apply flags_ok_tail.
  - rewrite Hrc, Hds, Hhs. lia.
  - eexists. unfold fresh, OBT.init. exact Hp.
Qed.

End HeaderTail.

(** ** What a successful load has established *)

Lemma int_from_bytes_bound (bs : list byte) :
  int_from_bytes bs < 256 ^ Z.of_nat (length bs).
Proof.
  induction bs as [|b bs IH]; cbn [int_from_bytes length]; [cbn; lia|].
  rewrite Nat2Z.inj_succ, Z.pow_succ_r by lia.
  pose proof (byte_val_range b). lia.
Qed.

Lemma int_from_bytes_u32 (bs : list byte) :
  0 <= int_from_bytes (take 4 bs) < U32_LIMIT.
Proof.
  split; [apply int_from_bytes_nonneg|].
  pose proof (int_from_bytes_bound (take 4 bs)) as H.
  assert (256 ^ Z.of_nat (length (take 4 bs)) <= 256 ^ 4).
  { apply Z.pow_le_mono_r; [lia|]. rewrite length_take. lia. }
  unfold U32_LIMIT. lia.
Qed.

Lemma bind_rows_seq_size (data : list byte) (n : nat) :
  size (bind_rows data (seq 0 n) ∅) = n.
Proof.
  induction n as [|n IH]; [apply map_size_empty|].
  rewrite seq_S, bind_rows_app. cbn [bind_rows foldl Nat.add].
  rewrite map_size_insert_None; [now rewrite IH|].
  rewrite bind_rows_lookup_other; [apply lookup_empty|].
  intros i Hi. apply elem_of_seq in Hi. lia.
Qed.

(** A [load] on a new archive object that returned went through every
    check. *)
Lemma load_fresh_success d name (w : world) :
  load (fresh d name) = (w, inr tt) →
  ∃ data p,
    d !! name = Some data
    ∧ 4 <= Z.of_nat (length data)
    ∧ header_size data <= Z.of_nat (length data)
    ∧ Forall (fun i => flag_ok (row_flag data i) = true)
             (seq 0 (row_count data))
    ∧ header_size data + declared_size data (seq 0 (row_count data))
      <= Z.of_nat (length data)
    ∧ w = World d
            (OBT.mk (bind_rows data (seq 0 (row_count data)) ∅)
               (Some (mkIO name p true false)) name
               (0 + header_size data
                  + declared_size data (seq 0 (row_count data)))
               0 OBT_Read).
Proof.
  unfold fresh, OBT.init. intros Hrun.
  destruct (d !! name) as [data|] eqn:Hd.
  2:{ rewrite load_no_file in Hrun by assumption. discriminate. }
  destruct (decide (Z.of_nat (length data) < 4)) as [H4|H4].
  { rewrite (load_too_short _ data) in Hrun
      by first [reflexivity | exact Hd | exact H4].
    discriminate. }
  destruct (decide (Z.of_nat (length data) < header_size data)) as [Hh|Hh].
  { rewrite (load_header_cut _ _ _ _ _ _ data) in Hrun by (assumption || lia).
    discriminate. }
  destruct (decide (Forall (fun i => flag_ok (row_flag data i) = true)
                      (seq 0 (row_count data)))) as [Hflags|Hflags].
  - destruct (decide (0 + header_size data
                        + declared_size data (seq 0 (row_count data))
                      <= Z.of_nat (length data))) as [Hsz|Hsz].
    + destruct (load_ok d ∅ None name 0 0 data Hd ltac:(lia) ltac:(lia)
                  Hflags Hsz) as [p' Hp'].
      rewrite Hp' in Hrun. injection Hrun as <-.
      exists data, p'. repeat split; try assumption; lia.
    + destruct (load_not_enough d ∅ None name 0 0 data Hd ltac:(lia) ltac:(lia)
                  Hflags ltac:(lia)) as [p' Hp'].
      rewrite Hp' in Hrun. discriminate.
  - apply not_Forall_Exists in Hflags; [|intros i; apply _].
    assert (Exists (fun i => flag_ok (row_flag data i) = false)
              (seq 0 (row_count data))) as Hex.
    { eapply Exists_impl; [exact Hflags|].
      intros i Hi. cbn in Hi. now destruct (flag_ok _). }
    destruct (load_bad_flag d ∅ None name 0 0 data Hd ltac:(lia) ltac:(lia) Hex)
      as (l1 & j & l2 & p' & _ & _ & _ & Hp').
    rewrite Hp' in Hrun. discriminate.
Qed.

(** X12: what a [load] that returned has established.  The table has
    exactly [header_size // 12] records, keyed 0, 1, ... with no gap (a
    header size that is not a multiple of 12 is rounded down, the remainder
    ignored); every record is loaded, holds no payload and has its three
    fields within 32 bits, the flag 0 or 1; [total_size] is the header size
    plus the declared sizes and does not exceed the file length. *)
Theorem load_success_shape (d : FS) (name : string) (w : world) :
  load (fresh d name) = (w, inr tt) →
  let data := file_data d name in
  let n := header_size data / 12 in
  OBT.mode (this w) = OBT_Read
  ∧ Z.of_nat (size (OBT.entries (this w))) = n
  ∧ (∀ z, is_Some (OBT.entries (this w) !! z) ↔ 0 <= z < n)
  ∧ (∀ z e, OBT.entries (this w) !! z = Some e →
       OBTEntry.loaded e = true ∧ OBTEntry.raw_entry e = None
       ∧ 0 <= OBTEntry.offset e < U32_LIMIT
       ∧ 0 <= OBTEntry.size e < U32_LIMIT
       ∧ (OBTEntry.is_compressed e = 0 ∨ OBTEntry.is_compressed e = 1))
  ∧ OBT.total_size (this w)
    = header_size data + declared_size data (seq 0 (Z.to_nat n))
  ∧ OBT.total_size (this w) <= Z.of_nat (length data)
  ∧ 12 * n <= header_size data <= Z.of_nat (length data).
Proof.
  intros Hrun.
  destruct (load_fresh_success d name w Hrun)
    as (data & p & Hd & H4 & Hh & Hflags & Hsz & ->).
  rewrite (file_data_lookup _ _ _ Hd). cbv zeta.
  cbn [this OBT.mode OBT.entries OBT.total_size].
  fold (row_count data).
  pose proof (int_from_bytes_nonneg (take 4 data)) as Hnn.
  fold (header_size data) in Hnn.
  assert (Z.of_nat (row_count data) = header_size data / 12) as Hrc.
  { unfold row_count. apply Z2Nat.id. apply Z.div_pos; lia. }
  split; [reflexivity|].
  split; [now rewrite bind_rows_seq_size|].
  split; [|split; [|split; [|split]]].
  - intros z. split.
    + intros [e He].
      apply bind_rows_lookup_inv in He as (i & -> & Hi & _).
      apply elem_of_seq in Hi. lia.
    + intros Hz. exists (row_entry data (Z.to_nat z)).
      rewrite <- (Z2Nat.id z) at 1 by lia.
      apply bind_rows_lookup, elem_of_seq. lia.
  - intros z e He.
    apply bind_rows_lookup_inv in He as (i & -> & Hi & ->).
    cbn [row_entry OBTEntry.loaded OBTEntry.raw_entry OBTEntry.offset
         OBTEntry.size OBTEntry.is_compressed].
    repeat split; try apply int_from_bytes_u32.
    eapply Forall_forall in Hflags; [|exact Hi].
    unfold flag_ok in Hflags. apply orb_prop in Hflags as [H|H];
      apply Z.eqb_eq in H; [now left|now right].
  - lia.
  - lia.
  - split; [|assumption]. apply Z.mul_div_le. lia.
Qed.

Lemma load_success_shape_witness :
  let d : FS := {[ "r.obt" := ragged_header_file ]} in
  let w := fst (load (fresh d "r.obt")) in
  load (fresh d "r.obt") = (w, inr tt)
  ∧ OBT.mode (this w) = OBT_Read
  ∧ Z.of_nat (size (OBT.entries (this w)))
    = header_size (file_data d "r.obt") / 12
  ∧ (∀ z, is_Some (OBT.entries (this w) !! z)
          ↔ 0 <= z < header_size (file_data d "r.obt") / 12).
Proof.
  intros d w.
  assert (H : load (fresh d "r.obt") = (w, inr tt))
    by (vm_compute; reflexivity).
  destruct (load_success_shape d "r.obt" w H) as (H1 & H2 & H3 & _).
  exact (conj H (conj H1 (conj H2 H3))).
Defined.

(** ** Cut and extended archives *)

(** X13: a written archive that lost bytes at its end is rejected.  For
    the file of a non-empty list of payloads that fit, [load] on any
    proper prefix of it raises [InvalidOBTFileError]: "Could not read
    header size" below 4 bytes, "Could not read header" when cut inside the
    header, "Not enough data in file" when cut inside the payloads. *)
Theorem truncated_archive_rejected (d : FS) (name : string)
    (blobs : list (list byte * bool)) (k : nat) :
  blobs ≠ [] →
  fits_u32 (12 * Z.of_nat (length blobs)) blobs = true →
  (k < length (archive_bytes blobs))%nat →
  d !! name = Some (take k (archive_bytes blobs)) →
  ∃ w, load (fresh d name)
       = (w, inl (InvalidOBTFileError
                    (if (k <? 4)%nat then "Could not read header size"
                     else if (k <? 12 * length blobs)%nat
                          then "Could not read header"
                          else "Not enough data in file"))).
Proof.
  intros Hne Hfits Hk Hd.
  assert (length (take k (archive_bytes blobs)) = k) as Hlen
    by (rewrite length_take; lia).
  destruct (k <? 4)%nat eqn:E4.
  { apply Nat.ltb_lt in E4. eexists.
    apply (load_too_short (fresh d name) (take k (archive_bytes blobs)));
      [reflexivity|exact Hd|lia]. }
  apply Nat.ltb_ge in E4.
  destruct (k <? 12 * length blobs)%nat eqn:Eh.
  - apply Nat.ltb_lt in Eh. eexists.
    apply (load_header_cut _ _ _ _ _ _ (take k (archive_bytes blobs)));
      [exact Hd|lia|].
    unfold header_size. rewrite take_take.
    replace (4 `min` k)%nat with 4%nat by lia.
    fold (header_size (archive_bytes blobs)).
    rewrite header_size_archive by assumption. lia.
  - apply Nat.ltb_ge in Eh.
    unfold archive_bytes in Hd, Hk.
    rewrite take_app_ge in Hd by (rewrite header_bytes_length; lia).
    rewrite length_app, header_bytes_length in Hk.
    apply (load_tail_short blobs _ Hne Hfits d name Hd).
    rewrite length_take, header_bytes_length.
    pose proof (payload_bytes_length blobs). lia.
Qed.

Lemma truncated_archive_rejected_witness :
  let d : FS := {[ "cut.obt" := take 27 (archive_bytes ab_cde) ]} in
  ab_cde ≠ []
  ∧ fits_u32 (12 * Z.of_nat (length ab_cde)) ab_cde = true
  ∧ (27 < length (archive_bytes ab_cde))%nat
  ∧ d !! "cut.obt" = Some (take 27 (archive_bytes ab_cde))
  ∧ ∃ w, load (fresh d "cut.obt")
         = (w, inl (InvalidOBTFileError
                      (if (27 <? 4)%nat then "Could not read header size"
                       else if (27 <? 12 * length ab_cde)%nat
                            then "Could not read header"
                            else "Not enough data in file"))).
Proof.
  intros d.
  assert (H1 : ab_cde ≠ []) by discriminate.
  assert (H2 : fits_u32 (12 * Z.of_nat (length ab_cde)) ab_cde = true)
    by reflexivity.
  assert (H3 : (27 < length (archive_bytes ab_cde))%nat) by (vm_compute; lia).
  assert (H4 : d !! "cut.obt" = Some (take 27 (archive_bytes ab_cde)))
    by (vm_compute; reflexivity).
  exact (conj H1 (conj H2 (conj H3 (conj H4
           (truncated_archive_rejected d "cut.obt" ab_cde 27 H1 H2 H3 H4))))).
Defined.

Lemma slice_app (A junk b : list byte) (k n : nat) :
  take n (drop k A) = b → length b = n →
  take n (drop k (A ++ junk)) = b.
Proof.
  intros Hb Hlen.
  destruct n as [|n]; [destruct b; [reflexivity|discriminate]|].
  pose proof (f_equal length Hb) as Hl.
  rewrite length_take, length_drop in Hl.
  rewrite drop_app_le by lia.
  rewrite take_app_le by (rewrite length_drop; lia).
  exact Hb.
Qed.

(** X14: bytes after the payloads are ignored.  The file of a non-empty
    list of payloads that fit, followed by any bytes, loads like the file
    itself: one record per payload, and [export_entry(i)] gives payload
    [i]. *)
Theorem trailing_bytes_ignored (d : FS) (name : string)
    (blobs : list (list byte * bool)) (junk : list byte) :
  blobs ≠ [] →
  fits_u32 (12 * Z.of_nat (length blobs)) blobs = true →
  d !! name = Some (archive_bytes blobs ++ junk) →
  ∃ w, load (fresh d name) = (w, inr tt)
       ∧ size (OBT.entries (this w)) = length blobs
       ∧ ∀ (i : nat) b f, blobs !! i = Some (b, f) →
           (∃ w', export_entry (Z.of_nat i) w = (w', inr b))
           ∧ ∃ e, OBT.entries (this w) !! Z.of_nat i = Some e
                  ∧ OBTEntry.is_compressed e = Z.b2z f.
Proof.
  intros Hne Hfits Hd.
  unfold archive_bytes in Hd. rewrite <- app_assoc in Hd.
  destruct (load_tail_ok blobs (payload_bytes blobs ++ junk) Hne Hfits d name Hd)
    as [p Hload].
  { rewrite length_app. pose proof (payload_bytes_length blobs). lia. }
  eexists. split; [exact Hload|].
  cbn [this OBT.entries]. split; [apply bind_rows_seq_size|].
  intros i b f Hi.
  pose proof (lookup_lt_Some _ _ _ Hi) as Hlt.
  set (file := header_bytes (12 * Z.of_nat (length blobs)) blobs
                 ++ payload_bytes blobs ++ junk) in *.
  assert (bind_rows file (seq 0 (length blobs)) ∅ !! Z.of_nat i
          = Some (OBTEntry.mk
                    (12 * Z.of_nat (length blobs) + total_sizes (take i blobs))
                    (blob_size (b, f)) (Z.b2z f) true None)) as Hent.
  { rewrite bind_rows_lookup by (apply elem_of_seq; lia).
    subst file. now rewrite (row_entry_tail _ _ Hfits _ _ Hi). }
  assert (take (Z.to_nat (blob_size (b, f)))
            (drop (Z.to_nat (12 * Z.of_nat (length blobs)
                             + total_sizes (take i blobs))) file) = b) as Hout.
  { subst file. rewrite app_assoc. fold (archive_bytes blobs).
    apply slice_app; [exact (archive_slice _ _ _ Hi)|].
    unfold blob_size. cbn [fst]. lia. }
  split.
  - eexists. rewrite (export_entry_run _ _ _ _ _ _ _ _ _ _ Hent).
    + cbn [OBTEntry.offset OBTEntry.size].
      rewrite (file_data_lookup _ _ _ Hd), Hout. reflexivity.
    + cbn [OBTEntry.offset]. pose proof (total_sizes_nonneg (take i blobs)). lia.
    + cbn [OBTEntry.size]. apply blob_size_nonneg.
  - eexists. split; [exact Hent|reflexivity].
Qed.

Lemma trailing_bytes_ignored_witness :
  let d : FS := {[ "j.obt" := archive_bytes ab_cde ++ ["X"; "Y"; "Z"]%byte ]} in
  ab_cde ≠ []
  ∧ fits_u32 (12 * Z.of_nat (length ab_cde)) ab_cde = true
  ∧ d !! "j.obt" = Some (archive_bytes ab_cde ++ ["X"; "Y"; "Z"]%byte)
  ∧ ∃ w, load (fresh d "j.obt") = (w, inr tt)
         ∧ size (OBT.entries (this w)) = length ab_cde
         ∧ ∀ (i : nat) b f, ab_cde !! i = Some (b, f) →
             (∃ w', export_entry (Z.of_nat i) w = (w', inr b))
             ∧ ∃ e, OBT.entries (this w) !! Z.of_nat i = Some e
                    ∧ OBTEntry.is_compressed e = Z.b2z f.
Proof.
  intros d.
  assert (H1 : ab_cde ≠ []) by discriminate.
  assert (H2 : fits_u32 (12 * Z.of_nat (length ab_cde)) ab_cde = true)
    by reflexivity.
  assert (H3 : d !! "j.obt" = Some (archive_bytes ab_cde ++ ["X"; "Y"; "Z"]%byte))
    by (vm_compute; reflexivity).
  exact (conj H1 (conj H2 (conj H3
           (trailing_bytes_ignored d "j.obt" ab_cde ["X"; "Y"; "Z"]%byte
              H1 H2 H3)))).
Defined.
